(** * Search, indexing and storage of Intra-mart user definitions

    A shallow embedding of the search path of the user-definition viewer:
    - [src/lib/user-definition-parser.ts]: [extractDefinitionContent];
    - [src/lib/services/search-index.service.ts]: the [SearchIndexService]
      singleton ([buildIndex], [search], [createSnippetWithPosition],
      [clear], [isReady]);
    - [src/routes/content.tsx] and [SearchDialog]: the debounced
      [performSearch] orchestrators;
    - [src/lib/services/indexeddb.service.ts]: [getDefinitionsByCategory].

    JavaScript strings are sequences of UTF-16 code units, modelled as
    [list Z]. *)

From Stdlib Require Import ZArith Lia Bool Ascii String Arith.
From Stdlib Require Import List.
From Stdlib Require Import Sorting.Sorted Sorting.Permutation.
Import ListNotations.
Set Warnings "-register-all".
Open Scope Z_scope.

(** ** JavaScript strings *)

Module JS.

Definition jsstr := list Z.

(** ASCII literals, code unit by code unit. *)
Fixpoint s2u (s : string) : jsstr :=
  match s with
  | EmptyString => []
  | String c r => Z.of_nat (nat_of_ascii c) :: s2u r
  end.

Fixpoint str_eqb (a b : jsstr) : bool :=
  match a, b with
  | [], [] => true
  | x :: a', y :: b' => (x =? y) && str_eqb a' b'
  | _, _ => false
  end.

(** [String.prototype.toLowerCase], one code unit at a time, on the code
    units the development exercises: the ASCII capitals, the Latin-1
    capitals (U+00C0..U+00DE except U+00D7) and U+0130, whose lowercase
    mapping in Unicode's SpecialCasing is the two code units U+0069 U+0307.
    Every other code unit is mapped to itself. *)
Definition lower_unit (c : Z) : list Z :=
  if (65 <=? c) && (c <=? 90) then [c + 32]
  else if (192 <=? c) && (c <=? 222) && negb (c =? 215) then [c + 32]
  else if c =? 304 then [105; 775]
  else [c].

Definition toLowerCase (s : jsstr) : jsstr := flat_map lower_unit s.

(** [String.prototype.trim]: the WhiteSpace and LineTerminator code units. *)
Definition is_js_space (c : Z) : bool :=
  (c =? 9) || (c =? 10) || (c =? 11) || (c =? 12) || (c =? 13) || (c =? 32)
  || (c =? 160) || (c =? 5760) || ((8192 <=? c) && (c <=? 8202))
  || (c =? 8232) || (c =? 8233) || (c =? 8239) || (c =? 8287)
  || (c =? 12288) || (c =? 65279).

Fixpoint trim_start (s : jsstr) : jsstr :=
  match s with
  | [] => []
  | c :: r => if is_js_space c then trim_start r else s
  end.

Definition trim (s : jsstr) : jsstr := rev (trim_start (rev (trim_start s))).

(** [text.startsWith(q)] *)
Fixpoint starts_with (q s : jsstr) : bool :=
  match q, s with
  | [], _ => true
  | _ :: _, [] => false
  | a :: q', b :: s' => (a =? b) && starts_with q' s'
  end.

(** [s.indexOf(q)] from position [i]; [None] stands for [-1]. *)
Fixpoint index_of_from (s q : jsstr) (i : nat) : option nat :=
  if starts_with q s then Some i
  else match s with
       | [] => None
       | _ :: s' => index_of_from s' q (S i)
       end.

Definition indexOf (s q : jsstr) : option nat := index_of_from s q 0.

(** [s.includes(q)] *)
Definition includes (s q : jsstr) : bool :=
  match indexOf s q with Some _ => true | None => false end.

(** [s.substring(a, b)] for [a <= b]. *)
Definition substring (s : jsstr) (a b : nat) : jsstr :=
  firstn (b - a) (skipn a s).

(** [s.split(sep)] for a one-code-unit separator. *)
Fixpoint split (sep : Z) (s : jsstr) : list jsstr :=
  match s with
  | [] => [[]]
  | c :: r =>
      if c =? sep then [] :: split sep r
      else match split sep r with
           | [] => [[c]]
           | w :: ws => (c :: w) :: ws
           end
  end.

(** [parts.join(sep)] *)
Fixpoint join (sep : jsstr) (parts : list jsstr) : jsstr :=
  match parts with
  | [] => []
  | [p] => p
  | p :: ps => p ++ sep ++ join sep ps
  end.

Definition newline : Z := 10.

End JS.
Import JS.

(** ** JSON payloads and [JSON.stringify(value, null, 2)] *)

Module Json.

(** A parsed JSON value; objects keep their keys in the order in which
    [JSON.parse] created them. *)
Inductive Json :=
| JNull
| JBool (b : bool)
| JNum (n : Z)
| JStr (s : jsstr)
| JArr (vs : list Json)
| JObj (ps : list (jsstr * Json)).

(** [value[key]] on an object ([JSON.parse] leaves no duplicate keys). *)
Fixpoint assoc_get (ps : list (jsstr * Json)) (k : jsstr) : option Json :=
  match ps with
  | [] => None
  | (k', v) :: r => if str_eqb k' k then Some v else assoc_get r k
  end.

Definition get_prop (o : Json) (k : jsstr) : option Json :=
  match o with
  | JObj ps => assoc_get ps k
  | _ => None
  end.

Definition hex_digit (d : Z) : Z := if d <? 10 then 48 + d else 87 + d.

(** ["\\u" + four lowercase hex digits] *)
Definition unicode_escape (c : Z) : jsstr :=
  [92; 117; hex_digit (c / 4096 mod 16); hex_digit (c / 256 mod 16);
   hex_digit (c / 16 mod 16); hex_digit (c mod 16)].

Definition is_lead (c : Z) : bool := (55296 <=? c) && (c <=? 56319).
Definition is_trail (c : Z) : bool := (56320 <=? c) && (c <=? 57343).

(** QuoteJSONString, code unit by code unit; [prev] and [next] tell
    whether a surrogate is part of a pair. *)
Definition quote_unit (prev_lead next_trail : bool) (c : Z) : jsstr :=
  if c =? 8 then [92; 98]
  else if c =? 9 then [92; 116]
  else if c =? 10 then [92; 110]
  else if c =? 12 then [92; 102]
  else if c =? 13 then [92; 114]
  else if c =? 34 then [92; 34]
  else if c =? 92 then [92; 92]
  else if c <? 32 then unicode_escape c
  else if is_lead c && negb next_trail then unicode_escape c
  else if is_trail c && negb prev_lead then unicode_escape c
  else [c].

Fixpoint quote_units (prev_lead : bool) (s : jsstr) : jsstr :=
  match s with
  | [] => []
  | c :: r =>
      let next_trail := match r with d :: _ => is_trail d | [] => false end in
      quote_unit prev_lead next_trail c ++ quote_units (is_lead c) r
  end.

Definition quote (s : jsstr) : jsstr := [34] ++ quote_units false s ++ [34].

(** Number::toString on integral numbers. *)
Fixpoint digits_aux (fuel : nat) (n : Z) (acc : jsstr) : jsstr :=
  match fuel with
  | O => acc
  | S f =>
      let acc' := (48 + n mod 10) :: acc in
      if n / 10 =? 0 then acc' else digits_aux f (n / 10) acc'
  end.

Definition number_to_string (n : Z) : jsstr :=
  let fuel := S (Z.to_nat (Z.log2 (Z.abs n) + 1)) in
  if n <? 0 then 45 :: digits_aux fuel (- n) [] else digits_aux fuel n [].

Definition gap : jsstr := [32; 32].

(** SerializeJSONProperty with indentation gap ["  "]; [ind] is the
    current indentation. *)
Fixpoint stringify_at (ind : jsstr) (v : Json) : jsstr :=
  match v with
  | JNull => s2u "null"
  | JBool true => s2u "true"
  | JBool false => s2u "false"
  | JNum n => number_to_string n
  | JStr s => quote s
  | JArr vs =>
      match vs with
      | [] => s2u "[]"
      | _ =>
          [91; newline] ++ ind ++ gap
          ++ join ([44; newline] ++ ind ++ gap)
               (map (stringify_at (ind ++ gap)) vs)
          ++ [newline] ++ ind ++ [93]
      end
  | JObj ps =>
      match ps with
      | [] => s2u "{}"
      | _ =>
          [123; newline] ++ ind ++ gap
          ++ join ([44; newline] ++ ind ++ gap)
               (map (fun kv => quote (fst kv) ++ [58; 32]
                               ++ stringify_at (ind ++ gap) (snd kv)) ps)
          ++ [newline] ++ ind ++ [125]
      end
  end.

(** [JSON.stringify(v, null, 2)] *)
Definition stringify (v : Json) : jsstr := stringify_at [] v.

End Json.
Import Json.

(** ** User definitions ([user-definition.types.ts]) *)

Record UserDefinition := mkUserDefinition {
  definitionId : jsstr;
  version : Z;
  categoryId : jsstr;
  definitionType : jsstr;
  definitionName : jsstr;
  sortNumber : Z;
  (** [UserDefinitionData]: [elementId], [iconId], [elementProperties],
      ... in the order of the exported JSON. *)
  definitionData : Json;
  localize : list (jsstr * jsstr);
  (** [sqlQuery] and [javaScriptCode] are not declared by the
      [UserDefinition] interface; a parsed definition carries them only if
      the exported JSON has such properties ([None]: [undefined]). *)
  sqlQuery : option jsstr;
  javaScriptCode : option jsstr
}.

(** [definitionData.elementProperties[k]]. The declared type makes
    [elementProperties] an object whose [query] and [script] are strings;
    payloads outside that type are not represented. *)
Definition elementProperty (dd : Json) (k : jsstr) : option Json :=
  match get_prop dd (s2u "elementProperties") with
  | Some ep => get_prop ep k
  | None => None
  end.

(** A string-valued property in a boolean context: truthy iff non-empty. *)
Definition truthy_string (v : option Json) : option jsstr :=
  match v with
  | Some (JStr s) => match s with [] => None | _ :: _ => Some s end
  | _ => None
  end.

(** [extractDefinitionContent] ([user-definition-parser.ts], 119-135). *)
Definition extractDefinitionContent (d : UserDefinition) : jsstr :=
  let dd := definitionData d in
  match (if str_eqb (definitionType d) (s2u "sql")
         then truthy_string (elementProperty dd (s2u "query")) else None) with
  | Some q => q
  | None =>
      match (if str_eqb (definitionType d) (s2u "javascript")
             then truthy_string (elementProperty dd (s2u "script")) else None) with
      | Some sc => sc
      | None => stringify dd
      end
  end.

(** ** The search index service ([search-index.service.ts]) *)

Module SearchIndex.

Inductive Field := FdefinitionName | Fcontent.

Definition field_eqb (f g : Field) : bool :=
  match f, g with
  | FdefinitionName, FdefinitionName | Fcontent, Fcontent => true
  | _, _ => false
  end.

(** The document handed to FlexSearch's [addAsync]. *)
Record SearchDocument := mkSearchDocument {
  sd_definitionId : jsstr;
  sd_definitionName : jsstr;
  sd_content : jsstr;
  sd_categoryId : jsstr;
  sd_definitionType : jsstr
}.

Record Match := mkMatch {
  m_field : Field;
  m_snippet : jsstr;
  m_lineNumber : option nat;
  m_column : option nat;
  m_matchLength : option nat
}.

Record SearchResult := mkSearchResult {
  sr_definition : UserDefinition;
  sr_matches : list Match;
  sr_score : Z
}.

(** The FlexSearch [Document]: its registered documents, in registration
    order. [add] of a registered id is FlexSearch's [update], i.e.
    [remove(id)] followed by a fresh [add]. *)
Definition FsIndex := list SearchDocument.

Definition fs_remove (id : jsstr) (idx : FsIndex) : FsIndex :=
  filter (fun d => negb (str_eqb (sd_definitionId d) id)) idx.

Definition fs_add (idx : FsIndex) (doc : SearchDocument) : FsIndex :=
  fs_remove (sd_definitionId doc) idx ++ [doc].

Fixpoint set_has (s : list jsstr) (k : jsstr) : bool :=
  match s with
  | [] => false
  | k' :: r => str_eqb k' k || set_has r k
  end.

(** The entries left by adding [ds] in order: the last one of each id. *)
Fixpoint last_entries (ds : list SearchDocument) : list SearchDocument :=
  match ds with
  | [] => []
  | d :: r =>
      if set_has (map sd_definitionId r) (sd_definitionId d) then last_entries r
      else d :: last_entries r
  end.

(** [Map<string, V>]: [set] of a present key replaces its value in place,
    [set] of a new key appends it. *)
Fixpoint map_set {V} (m : list (jsstr * V)) (k : jsstr) (v : V) : list (jsstr * V) :=
  match m with
  | [] => [(k, v)]
  | (k', v') :: r => if str_eqb k' k then (k, v) :: r else (k', v') :: map_set r k v
  end.

Fixpoint map_get {V} (m : list (jsstr * V)) (k : jsstr) : option V :=
  match m with
  | [] => None
  | (k', v) :: r => if str_eqb k' k then Some v else map_get r k
  end.

(** The fields of the singleton. *)
Record Service := mkService {
  index : option FsIndex;
  definitionsMap : list (jsstr * UserDefinition);
  isIndexed : bool
}.

Definition initial : Service := mkService None [] false.

Record SearchOptions := mkSearchOptions {
  opt_limit : option nat;
  opt_fields : option (list Field);
  opt_definitionType : option jsstr;
  opt_categoryId : option jsstr
}.

Definition no_options : SearchOptions := mkSearchOptions None None None None.

Inductive SearchError := IndexNotReady.

Inductive result (A : Type) :=
| Ok (a : A)
| Err (e : SearchError).
Arguments Ok {A} a.
Arguments Err {A} e.

(** [initIndex] (44-66): creates the FlexSearch document only if there is
    none. *)
Definition initIndex (st : Service) : Service :=
  match index st with
  | Some _ => st
  | None => mkService (Some []) (definitionsMap st) (isIndexed st)
  end.

Definition toSearchDocument (d : UserDefinition) : SearchDocument :=
  mkSearchDocument (definitionId d) (definitionName d)
    (extractDefinitionContent d) (categoryId d) (definitionType d).

(** One iteration of the loop of [buildIndex]. *)
Definition build_step (acc : FsIndex * list (jsstr * UserDefinition))
    (d : UserDefinition) : FsIndex * list (jsstr * UserDefinition) :=
  let '(idx, m) := acc in
  let m' := map_set m (definitionId d) d in
  (fs_add idx (toSearchDocument d), m').

(** [buildIndex] (72-95). *)
Definition buildIndex (docs : list UserDefinition) (st : Service) : Service :=
  let st1 := initIndex st in
  let idx0 := match index st1 with Some i => i | None => [] end in
  let '(idx, m) := fold_left build_step docs (idx0, []) in
  mkService (Some idx) m true.

(** [clear] (267-271) and [isReady] (276-278). *)
Definition clear (st : Service) : Service := mkService None [] false.

Definition isReady (st : Service) : bool := isIndexed st.

(** [text.substring(a, b)]: both ends clamped to the length, swapped if
    [a > b]. *)
Definition js_substring (s : jsstr) (a b : nat) : jsstr :=
  let a' := Nat.min a (length s) in
  let b' := Nat.min b (length s) in
  let lo := Nat.min a' b' in
  let hi := Nat.max a' b' in
  firstn (hi - lo) (skipn lo s).

Definition ellipsis : jsstr := [46; 46; 46].

(** [createSnippetWithPosition] (180-219), with the default
    [contextLength = 100]; the result is [(snippet, lineNumber, column)]. *)
Definition createSnippetWithPosition (text query : jsstr)
    : jsstr * option nat * option nat :=
  let contextLength := 100%nat in
  let lowerText := toLowerCase text in
  let lowerQuery := toLowerCase query in
  match indexOf lowerText lowerQuery with
  | None => (js_substring text 0 contextLength ++ ellipsis, None, None)
  | Some i =>
      let textBeforeMatch := js_substring text 0 i in
      let lines := split newline textBeforeMatch in
      let lineNumber := length lines in
      let column := (length (last lines []) + 1)%nat in
      (* Math.max(0, index - contextLength / 2) *)
      let start := Nat.max 0 (i - contextLength / 2) in
      let end_ := Nat.min (length text) (i + length query + contextLength / 2) in
      let snippet := js_substring text start end_ in
      let snippet := if (0 <? start)%nat then ellipsis ++ snippet else snippet in
      let snippet := if (end_ <? length text)%nat then snippet ++ ellipsis else snippet in
      (snippet, Some lineNumber, Some column)
  end.

(** [if (filter && value !== filter) continue;]: an empty string filter is
    falsy and filters nothing. *)
Definition filter_rejects (filter : option jsstr) (value : jsstr) : bool :=
  match filter with
  | Some ((_ :: _) as t) => negb (str_eqb value t)
  | _ => false
  end.

Section Engine.

(** FlexSearch's per-field search: the ids of the documents of the index
    matching the query in the given field, ranked, at most [limit]
    of them. *)
Variable fs_search : FsIndex -> Field -> jsstr -> nat -> list jsstr.

(** [index.searchAsync(query, limit, { index: fields, enrich: true })]: one
    [{ field, result }] entry per requested field, in the requested order. *)
Definition searchAsync (idx : FsIndex) (query : jsstr) (limit : nat)
    (fields : list Field) : list (Field * list jsstr) :=
  map (fun f => (f, fs_search idx f query limit)) fields.

Definition default_fields : list Field := [FdefinitionName; Fcontent].

(** [const { limit = 50, fields } = options; fields || [...]] *)
Definition limit_of (o : SearchOptions) : nat :=
  match opt_limit o with Some l => l | None => 50%nat end.

Definition fields_of (o : SearchOptions) : list Field :=
  match opt_fields o with Some fs => fs | None => default_fields end.

(** The first of [fields] whose hit list contains [id]. *)
Fixpoint first_hit_field (idx : FsIndex) (query : jsstr) (limit : nat)
    (fields : list Field) (id : jsstr) : option Field :=
  match fields with
  | [] => None
  | f :: r =>
      if set_has (fs_search idx f query limit) id then Some f
      else first_hit_field idx query limit r id
  end.

(** The body of the inner loop of [search] (130-171), on the state
    [(seenIds, formattedResults)]. *)
Definition search_item (m : list (jsstr * UserDefinition)) (query : jsstr)
    (o : SearchOptions) (field : Field)
    (acc : list jsstr * list SearchResult) (definitionId : jsstr)
    : list jsstr * list SearchResult :=
  let '(seenIds, formatted) := acc in
  if set_has seenIds definitionId then acc else
  match map_get m definitionId with
  | None => acc
  | Some definition =>
      if filter_rejects (opt_definitionType o) (definitionType definition) then acc
      else if filter_rejects (opt_categoryId o) (categoryId definition) then acc
      else
        let content := match field with
                       | Fcontent => extractDefinitionContent definition
                       | FdefinitionName => definitionName definition
                       end in
        let '(snippet, lineNumber, column) := createSnippetWithPosition content query in
        (definitionId :: seenIds,
         formatted ++ [mkSearchResult definition
                         [mkMatch field snippet lineNumber column
                            (Some (length query))] 1])
  end.

Definition search_field (m : list (jsstr * UserDefinition)) (query : jsstr)
    (o : SearchOptions) (acc : list jsstr * list SearchResult)
    (fr : Field * list jsstr) : list jsstr * list SearchResult :=
  fold_left (search_item m query o (fst fr)) (snd fr) acc.

(** [search] (101-175). *)
Definition search (st : Service) (query : jsstr) (o : SearchOptions)
    : result (list SearchResult) :=
  match index st, isIndexed st with
  | Some idx, true =>
      let limit := limit_of o in
      let searchFields := fields_of o in
      let results := searchAsync idx query limit searchFields in
      Ok (snd (fold_left (search_field (definitionsMap st) query o) results ([], [])))
  | _, _ => Err IndexNotReady
  end.

End Engine.

(** The engine with every hit whose id has no entry in [m] removed. *)
Definition hits_in_map (m : list (jsstr * UserDefinition))
    (fs_search : FsIndex -> Field -> jsstr -> nat -> list jsstr)
    : FsIndex -> Field -> jsstr -> nat -> list jsstr :=
  fun idx f q l =>
    filter (fun id => match map_get m id with Some _ => true | None => false end)
      (fs_search idx f q l).

End SearchIndex.
Import SearchIndex.

(** ** Service lifecycle: sequences of calls on the singleton *)

Module Lifecycle.

Inductive op :=
| OpBuild (docs : list UserDefinition)
| OpClear
| OpSearch (q : jsstr) (o : SearchOptions)
| OpIsReady
| OpGetStats.

(** Effect of a call on the fields of the singleton; [search], [isReady]
    and [getStats] only read them. *)
Definition step (st : Service) (c : op) : Service :=
  match c with
  | OpBuild docs => buildIndex docs st
  | OpClear => clear st
  | _ => st
  end.

Definition run (st : Service) (cs : list op) : Service := fold_left step cs st.

Definition is_build (c : op) : bool :=
  match c with OpBuild _ => true | _ => false end.

Definition is_mutation (c : op) : bool :=
  match c with OpBuild _ | OpClear => true | _ => false end.

End Lifecycle.

(** ** The search orchestrators *)

Module Orchestrator.

Inductive FilterType := FilterAll | FilterSql | FilterJavascript.
Inductive SearchMode := ModeBasic | ModeAdvanced.
Inductive Logic := LogicAND | LogicOR.

(** The React state read by [performSearch] in [routes/content.tsx]. *)
Record ContentState := mkContentState {
  searchQuery : jsstr;
  searchFilterType : FilterType;
  selectedCategoryId : jsstr;
  searchMode : SearchMode;
  advancedSearchQuery : jsstr;
  advancedSearchLogic : Logic
}.

Definition or_empty (v : option jsstr) : jsstr :=
  match v with Some s => s | None => [] end.

Definition is_blank (s : jsstr) : bool :=
  match trim s with [] => true | _ => false end.

(** [advancedSearchQuery.split(';').map(k => k.trim().toLowerCase())
      .filter(k => k.length > 0)] *)
Definition keywords_of (adv : jsstr) : list jsstr :=
  filter (fun k => (0 <? length k)%nat)
    (map (fun k => toLowerCase (trim k)) (split 59 adv)).

(** [searchableText] of a result (121-126). *)
Definition searchableText (r : SearchResult) : jsstr :=
  let d := sr_definition r in
  toLowerCase (join [32]
    ([definitionName d; or_empty (sqlQuery d); or_empty (javaScriptCode d)]
     ++ map m_snippet (sr_matches r))).

Definition keep_result (logic : Logic) (keywords : list jsstr)
    (r : SearchResult) : bool :=
  let t := searchableText r in
  match logic with
  | LogicAND => forallb (fun k => includes t k) keywords
  | LogicOR => existsb (fun k => includes t k) keywords
  end.

(** The advanced-mode filtering (111-137). *)
Definition advanced_filter (ui : ContentState) (results : list SearchResult)
    : list SearchResult :=
  match searchMode ui with
  | ModeAdvanced =>
      if is_blank (advancedSearchQuery ui) then results else
      let keywords := keywords_of (advancedSearchQuery ui) in
      match keywords with
      | [] => results
      | _ => filter (keep_result (advancedSearchLogic ui) keywords) results
      end
  | ModeBasic => results
  end.

Definition content_options (ui : ContentState) : SearchOptions :=
  let definitionType :=
    match searchFilterType ui with
    | FilterAll => None
    | FilterSql => Some (s2u "sql")
    | FilterJavascript => Some (s2u "javascript")
    end in
  let categoryId :=
    if str_eqb (selectedCategoryId ui) (s2u "all") then None
    else Some (selectedCategoryId ui) in
  mkSearchOptions (Some 1000%nat) None definitionType categoryId.

(** [performSearch] of [routes/content.tsx] (95-146). It returns the calls
    made to [searchIndexService.search] and the value given to
    [setSearchResults]; a thrown error is caught and yields [[]]. *)
Definition performSearch
    (fs_search : FsIndex -> Field -> jsstr -> nat -> list jsstr)
    (st : Service) (ui : ContentState)
    : list (jsstr * SearchOptions) * list SearchResult :=
  let q := searchQuery ui in
  if is_blank q || (length q <? 2)%nat then ([], []) else
  let o := content_options ui in
  match search fs_search st q o with
  | Err _ => ([(q, o)], [])
  | Ok results => ([(q, o)], advanced_filter ui results)
  end.

(** [performSearch] of [SearchDialog] (unnamed part_001, 510-530). *)
Definition dialogPerformSearch
    (fs_search : FsIndex -> Field -> jsstr -> nat -> list jsstr)
    (st : Service) (query : jsstr) (filterType : FilterType)
    : list (jsstr * SearchOptions) * list SearchResult :=
  if is_blank query || (length query <? 2)%nat then ([], []) else
  let definitionType :=
    match filterType with
    | FilterAll => None
    | FilterSql => Some (s2u "sql")
    | FilterJavascript => Some (s2u "javascript")
    end in
  let o := mkSearchOptions (Some 50%nat) None definitionType None in
  match search fs_search st query o with
  | Err _ => ([(query, o)], [])
  | Ok results => ([(query, o)], results)
  end.

(** The filter as the specification words it: keywords as above, matched
    against the definition's name, its extracted content and all snippet
    texts, joined. *)
Definition spec_keep_result (logic : Logic) (keywords : list jsstr)
    (r : SearchResult) : bool :=
  let d := sr_definition r in
  let t := join [32] ([definitionName d; extractDefinitionContent d]
                      ++ map m_snippet (sr_matches r)) in
  match logic with
  | LogicAND => forallb (fun k => includes t k) keywords
  | LogicOR => existsb (fun k => includes t k) keywords
  end.

End Orchestrator.

(** ** IndexedDB storage ([indexeddb.service.ts]) *)

Module IDB.

(** IndexedDB compares string keys code unit by code unit. *)
Fixpoint key_compare (a b : jsstr) : comparison :=
  match a, b with
  | [], [] => Eq
  | [], _ :: _ => Lt
  | _ :: _, [] => Gt
  | x :: a', y :: b' =>
      match Z.compare x y with
      | Eq => key_compare a' b'
      | c => c
      end
  end.

(** The [definitions] object store, keyPath [definitionId]: its records in
    key order. [put] replaces the record of an existing key. *)
Definition Store := list UserDefinition.

Fixpoint put (store : Store) (d : UserDefinition) : Store :=
  match store with
  | [] => [d]
  | x :: r =>
      match key_compare (definitionId d) (definitionId x) with
      | Lt => d :: store
      | Eq => d :: r
      | Gt => x :: put r d
      end
  end.

(** The definition part of [saveParsedData] (101-139). *)
Definition saveDefinitions (store : Store) (defs : list UserDefinition) : Store :=
  fold_left put defs store.

(** [store.index('categoryId').getAll(categoryId)]: the records whose index
    key equals the query, in (index key, primary key) order. *)
Definition index_getAll (store : Store) (c : jsstr) : list UserDefinition :=
  filter (fun d => str_eqb (categoryId d) c) store.

(** [Array.prototype.sort] with the comparator
    [(a, b) => a.sortNumber - b.sortNumber]; the sort is stable, so its
    result is the one of a stable insertion sort. *)
Fixpoint insert_by_sortNumber (x : UserDefinition) (l : list UserDefinition)
    : list UserDefinition :=
  match l with
  | [] => [x]
  | y :: r =>
      if sortNumber x <=? sortNumber y then x :: l
      else y :: insert_by_sortNumber x r
  end.

Fixpoint sort_by_sortNumber (l : list UserDefinition) : list UserDefinition :=
  match l with
  | [] => []
  | x :: r => insert_by_sortNumber x (sort_by_sortNumber r)
  end.

(** [getDefinitionsByCategory] (160-175). *)
Definition getDefinitionsByCategory (store : Store) (c : jsstr)
    : list UserDefinition :=
  sort_by_sortNumber (index_getAll store c).

Definition key_lt (a b : jsstr) : Prop := key_compare a b = Lt.

(** Ascending [sortNumber], then ascending [definitionId]. *)
Definition display_lt (x y : UserDefinition) : Prop :=
  sortNumber x < sortNumber y \/
  (sortNumber x = sortNumber y /\ key_lt (definitionId x) (definitionId y)).

End IDB.

(** ** The rest of the parser module ([user-definition-parser.ts]) *)

Module Types.

(** [UserCategory] ([user-definition.types.ts], 3-15); [localizes] maps a
    locale to its [{ locale, categoryName }]. *)
Record UserCategory := mkUserCategory {
  categoryId : jsstr;
  categoryName : jsstr;
  sortNumber : Z;
  iconId : option jsstr;
  localizes : list (jsstr * (jsstr * jsstr));
  displayName : jsstr
}.

(** [ParsedUserDefinition] (49-52). *)
Record ParsedUserDefinition := mkParsedUserDefinition {
  userCategories : list UserCategory;
  userDefinitions : list UserDefinition
}.

End Types.

Module Tree.

Inductive NodeType := folder | file.

(** [FileTreeNode] (55-63); [None] stands for an absent optional
    property. *)
Inductive FileTreeNode := mkFileTreeNode {
  id : jsstr;
  name : jsstr;
  type : NodeType;
  children : option (list FileTreeNode);
  definition : option UserDefinition;
  category : option Types.UserCategory;
  expanded : option bool
}.

(** The file node of a definition (63-68 of [buildFileTree]). *)
Definition fileNode (def : UserDefinition) : FileTreeNode :=
  mkFileTreeNode (definitionId def) (definitionName def) file None (Some def) None None.

(** The folder node of a category (71-78). *)
Definition folderNode (category : Types.UserCategory) (fileNodes : list FileTreeNode)
    : FileTreeNode :=
  mkFileTreeNode (Types.categoryId category) (Types.displayName category) folder
    (Some fileNodes) None (Some category) (Some false).

(** One iteration of [userDefinitions.forEach] (48-53) on the Map
    [definitionsByCategory], whose arrays only this Map holds. *)
Definition group_step (m : list (jsstr * list UserDefinition)) (def : UserDefinition)
    : list (jsstr * list UserDefinition) :=
  let m1 := match map_get m (categoryId def) with
            | Some _ => m
            | None => map_set m (categoryId def) []
            end in
  match map_get m1 (categoryId def) with
  | Some arr => map_set m1 (categoryId def) (arr ++ [def])
  | None => m1
  end.

(** One iteration of [userCategories.forEach] (56-81): [definitions.sort]
    sorts in place the array held by the Map, when there is one. *)
Definition folder_step (acc : list (jsstr * list UserDefinition) * list FileTreeNode)
    (category : Types.UserCategory)
    : list (jsstr * list UserDefinition) * list FileTreeNode :=
  let '(m, tree) := acc in
  let k := Types.categoryId category in
  let '(m', definitions) :=
    match map_get m k with
    | Some arr => let sorted := IDB.sort_by_sortNumber arr in (map_set m k sorted, sorted)
    | None => (m, IDB.sort_by_sortNumber [])
    end in
  (m', tree ++ [folderNode category (map fileNode definitions)]).

(** [buildFileTree] (32-84); [categoryMap] is built but never read. *)
Definition buildFileTree (parsed : Types.ParsedUserDefinition) : list FileTreeNode :=
  let definitionsByCategory :=
    fold_left group_step (Types.userDefinitions parsed) [] in
  snd (fold_left folder_step (Types.userCategories parsed) (definitionsByCategory, [])).

(** [{ ...node, children, expanded: true }] *)
Definition with_children (node : FileTreeNode) (cs : list FileTreeNode) : FileTreeNode :=
  match node with
  | mkFileTreeNode i n t _ d c _ => mkFileTreeNode i n t (Some cs) d c (Some true)
  end.

(** [.filter((n): n is FileTreeNode => n !== null)] *)
Fixpoint non_null (l : list (option FileTreeNode)) : list FileTreeNode :=
  match l with
  | [] => []
  | Some n :: r => n :: non_null r
  | None :: r => non_null r
  end.

(** [filterNode] of [searchInTree] (169-190); [None] stands for [null]. *)
Fixpoint filterNode (lowerSearch : jsstr) (node : FileTreeNode) : option FileTreeNode :=
  match node with
  | mkFileTreeNode i n t cs d c e =>
      let nameMatches := includes (toLowerCase n) lowerSearch in
      match t with
      | file => if nameMatches then Some node else None
      | folder =>
          let filteredChildren :=
            match cs with
            | Some l => Some (non_null (map (filterNode lowerSearch) l))
            | None => None
            end in
          match filteredChildren with
          | Some ((_ :: _) as fc) => Some (with_children node fc)
          | _ => if nameMatches then Some node else None
          end
      end
  end.

(** [searchInTree] (163-193). *)
Definition searchInTree (tree : list FileTreeNode) (searchTerm : jsstr)
    : list FileTreeNode :=
  let lowerSearch := toLowerCase searchTerm in
  non_null (map (filterNode lowerSearch) tree).

(** The nodes of a tree, at every depth. *)
Fixpoint all_nodes (node : FileTreeNode) : list FileTreeNode :=
  node :: match children node with
          | Some l => flat_map all_nodes l
          | None => []
          end.

(** No file node has a [children] property (as in the trees the viewer
    builds). *)
Definition files_are_leaves (tree : list FileTreeNode) : bool :=
  forallb (fun n => match type n, children n with
                    | file, Some _ => false
                    | _, _ => true
                    end) (flat_map all_nodes tree).

(** The node's name, or the name of one of its descendants, contains
    [lowerSearch] case-insensitively. *)
Fixpoint matches_below (lowerSearch : jsstr) (node : FileTreeNode) : bool :=
  includes (toLowerCase (name node)) lowerSearch ||
  match children node with
  | Some l => existsb (matches_below lowerSearch) l
  | None => false
  end.

End Tree.

Module Editor.

(** [getFileExtension] (89-99). *)
Definition getFileExtension (definitionType : jsstr) : jsstr :=
  let t := toLowerCase definitionType in
  if str_eqb t (s2u "sql") then s2u ".sql"
  else if str_eqb t (s2u "javascript") || str_eqb t (s2u "js") then s2u ".js"
  else s2u ".txt".

(** [getEditorLanguage] (104-114). *)
Definition getEditorLanguage (definitionType : jsstr) : jsstr :=
  let t := toLowerCase definitionType in
  if str_eqb t (s2u "sql") then s2u "sql"
  else if str_eqb t (s2u "javascript") || str_eqb t (s2u "js") then s2u "javascript"
  else s2u "plaintext".

End Editor.

(** ** The rest of the search index service *)

Module SearchApi.

(** The [definitionType] option of [searchContent]: ['sql' | 'javascript']. *)
Inductive DefinitionType := dt_sql | dt_javascript.

Definition definitionType_string (t : DefinitionType) : jsstr :=
  match t with dt_sql => s2u "sql" | dt_javascript => s2u "javascript" end.

Section Engine.

Variable fs_search : FsIndex -> Field -> jsstr -> nat -> list jsstr.

(** [limit: number = 50] *)
Definition limit_or_default (limit : option nat) : nat :=
  match limit with Some l => l | None => 50%nat end.

(** [searchNames] (225-247). *)
Definition searchNames (st : Service) (query : jsstr) (limit : option nat)
    : result (list UserDefinition) :=
  match index st, isIndexed st with
  | Some idx, true =>
      let results :=
        searchAsync fs_search idx query (limit_or_default limit) [FdefinitionName] in
      Ok (fold_left
            (fun definitions fieldResult =>
               fold_left
                 (fun definitions itemId =>
                    match map_get (definitionsMap st) itemId with
                    | Some definition => definitions ++ [definition]
                    | None => definitions
                    end)
                 (snd fieldResult) definitions)
            results [])
  | _, _ => Err IndexNotReady
  end.

(** [searchContent] (252-262). *)
Definition searchContent (st : Service) (query : jsstr)
    (definitionType : option DefinitionType) (limit : option nat)
    : result (list SearchResult) :=
  search fs_search st query
    (mkSearchOptions (Some (limit_or_default limit)) (Some [Fcontent])
       (option_map definitionType_string definitionType) None).

End Engine.

(** [getStats] (283-288): [isIndexed] and the size of [definitionsMap]. *)
Definition getStats (st : Service) : bool * nat :=
  (isIndexed st, length (definitionsMap st)).

(** The highlight positions of [handleSearchResultSelect]
    ([routes/content.tsx], 179-192): the matches whose [lineNumber],
    [column] and [matchLength] are all truthy. *)
Definition truthy_number (v : option nat) : bool :=
  match v with Some n => negb (n =? 0)%nat | None => false end.

Definition non_null_number (v : option nat) : nat :=
  match v with Some n => n | None => 0%nat end.

Definition highlightPositions (result : SearchResult) : list (nat * nat * nat) :=
  map (fun match_ => (non_null_number (m_lineNumber match_),
                      non_null_number (m_column match_),
                      non_null_number (m_matchLength match_)))
    (filter (fun match_ => truthy_number (m_lineNumber match_)
                           && truthy_number (m_column match_)
                           && truthy_number (m_matchLength match_))
       (sr_matches result)).

End SearchApi.

(** ** The rest of the IndexedDB service *)

Module IndexedDB.

Inductive MetaValue := MetaString (s : jsstr) | MetaNumber (n : Z).

(** A record of the [metadata] store, keyPath [key]. *)
Record MetaRecord := mkMetaRecord { key : jsstr; value : MetaValue }.

(** [put] on a store of keyPath [keyOf], records kept in key order. *)
Fixpoint put_by {A} (keyOf : A -> jsstr) (store : list A) (x : A) : list A :=
  match store with
  | [] => [x]
  | y :: r =>
      match IDB.key_compare (keyOf x) (keyOf y) with
      | Lt => x :: store
      | Eq => x :: r
      | Gt => y :: put_by keyOf r x
      end
  end.

(** The three object stores of [LogicDesignerDB]. *)
Record DB := mkDB {
  definitions : IDB.Store;
  categories : list Types.UserCategory;
  metadata : list MetaRecord
}.

Definition emptyDB : DB := mkDB [] [] [].

(** [clear] (75-87). *)
Definition clear (db : DB) : DB := mkDB [] [] [].

(** [saveParsedData] (101-139), one transaction; [now] is
    [new Date().toISOString()]. *)
Definition saveParsedData (now : jsstr) (data : Types.ParsedUserDefinition) (db : DB)
    : DB :=
  let categoryStore :=
    fold_left (put_by Types.categoryId) (Types.userCategories data) (categories db) in
  let defStore := IDB.saveDefinitions (definitions db) (Types.userDefinitions data) in
  let metadataStore :=
    fold_left (put_by key)
      [mkMetaRecord (s2u "lastUpdated") (MetaString now);
       mkMetaRecord (s2u "definitionCount")
         (MetaNumber (Z.of_nat (length (Types.userDefinitions data))));
       mkMetaRecord (s2u "categoryCount")
         (MetaNumber (Z.of_nat (length (Types.userCategories data))))]
      (metadata db) in
  mkDB defStore categoryStore metadataStore.

(** [getCategories] (144-154) and [getAllDefinitions] (196-206): [getAll]
    in key order. *)
Definition getCategories (db : DB) : list Types.UserCategory := categories db.

Definition getAllDefinitions (db : DB) : list UserDefinition := definitions db.

(** [getDefinition] (180-190): [store.get(definitionId)]. *)
Definition getDefinition (db : DB) (k : jsstr) : option UserDefinition :=
  find (fun d => str_eqb (definitionId d) k) (definitions db).

(** [countDefinitions] (263-273). *)
Definition countDefinitions (db : DB) : nat := length (definitions db).

(** [getMetadata] (278-288): [request.result?.value]. *)
Definition getMetadata (db : DB) (k : jsstr) : option MetaValue :=
  option_map value (find (fun r => str_eqb (key r) k) (metadata db)).

(** [hasData] (293-300) when [countDefinitions] succeeds. *)
Definition hasData (db : DB) : bool := (0 <? countDefinitions db)%nat.

(** The cursor of [getDefinitionsPaginated] (212-258) over the records in
    key order, for [offset > 0] ... *)
Fixpoint cursor_with_offset (offset limit : Z) (recs : list UserDefinition)
    (skipped : Z) (results : list UserDefinition) : list UserDefinition :=
  match recs with
  | [] => results
  | c :: rest =>
      if skipped <? offset then cursor_with_offset offset limit rest (skipped + 1) results
      else if Z.of_nat (length results) <? limit
      then cursor_with_offset offset limit rest skipped (results ++ [c])
      else results
  end.

(** ... and otherwise. *)
Fixpoint cursor_from_start (limit : Z) (recs : list UserDefinition)
    (results : list UserDefinition) : list UserDefinition :=
  match recs with
  | c :: rest =>
      if Z.of_nat (length results) <? limit
      then cursor_from_start limit rest (results ++ [c])
      else results
  | [] => results
  end.

(** [getDefinitionsPaginated(offset = 0, limit = 100)] on integral
    arguments. *)
Definition getDefinitionsPaginated (db : DB) (offset limit : option Z)
    : list UserDefinition :=
  let offset := match offset with Some o => o | None => 0 end in
  let limit := match limit with Some l => l | None => 100 end in
  if 0 <? offset then cursor_with_offset offset limit (definitions db) 0 []
  else cursor_from_start limit (definitions db) [].

(** The calls that change the database. *)
Inductive op := OpClear | OpSave (now : jsstr) (data : Types.ParsedUserDefinition).

Definition step (db : DB) (c : op) : DB :=
  match c with
  | OpClear => clear db
  | OpSave now data => saveParsedData now data db
  end.

Definition run (db : DB) (cs : list op) : DB := fold_left step cs db.

End IndexedDB.

(** ** Loading the database into the application ([contexts/AppContext.tsx]) *)

Module App.

Record Stats := mkStats { definitionCount : nat; categoryCount : nat }.

(** [loadDataFromDB] (63-89): the categories given to [setCategories],
    the search index service after [buildIndex], and the stats. *)
Definition loadDataFromDB (db : IndexedDB.DB) (st : Service)
    : list Types.UserCategory * Service * Stats :=
  let cats := IndexedDB.getCategories db in
  let allDefinitions := IndexedDB.getAllDefinitions db in
  let st' := buildIndex allDefinitions st in
  let count := IndexedDB.countDefinitions db in
  (cats, st', mkStats count (length cats)).

(** The upload of a parsed file ([components/FileUpload.tsx], 132-139):
    [indexedDBService.clear()], [saveParsedData(parsed)], then
    [loadDataFromDB()]. *)
Definition uploadParsed (now : jsstr) (parsed : Types.ParsedUserDefinition)
    (db : IndexedDB.DB) (st : Service)
    : IndexedDB.DB * (list Types.UserCategory * Service * Stats) :=
  let db' := IndexedDB.saveParsedData now parsed (IndexedDB.clear db) in
  (db', loadDataFromDB db' st).

End App.

(** ** Concrete inputs *)

Module Examples.

Definition field_text (f : Field) (d : SearchDocument) : jsstr :=
  match f with
  | FdefinitionName => sd_definitionName d
  | Fcontent => sd_content d
  end.

(** A FlexSearch-like engine for concrete runs: with [tokenize: 'full'] a
    query matches any part of a field, case-insensitively; hits are ranked
    in registration order and cut at [limit]. *)
Definition fs_substring (idx : FsIndex) (f : Field) (q : jsstr) (limit : nat)
    : list jsstr :=
  firstn limit
    (map sd_definitionId
       (filter (fun d => includes (toLowerCase (field_text f d)) (toLowerCase q)) idx)).

Definition sql_data (query : jsstr) : Json :=
  JObj [(s2u "elementId", JStr (s2u "sql"));
        (s2u "iconId", JNull);
        (s2u "elementProperties",
          JObj [(s2u "query", JStr query); (s2u "queryType", JStr (s2u "select"))])].

Definition mkDef (id cat ty name : string) (sn : Z) (data : Json) : UserDefinition :=
  mkUserDefinition (s2u id) 1 (s2u cat) (s2u ty) (s2u name) sn data [] None None.

Definition d_orders : UserDefinition :=
  mkDef "d1" "catA" "sql" "Orders report" 1 (sql_data (s2u "select * from orders")).

Definition d_a : UserDefinition :=
  mkDef "a" "catA" "sql" "foo a" 1 (sql_data (s2u "select 1")).

Definition d_b : UserDefinition :=
  mkDef "b" "catA" "sql" "foo b" 2 (sql_data (s2u "select foo")).

Definition d_c : UserDefinition :=
  mkDef "c" "catA" "sql" "foo c" 3 (sql_data (s2u "select 2")).

(** A query text whose first line is the single code unit U+0130. *)
Definition d_dotted : UserDefinition :=
  mkDef "u" "catA" "sql" "unicode" 1 (sql_data [304; 10; 97; 98]).

Definition d_emptyq : UserDefinition :=
  mkDef "e" "catA" "sql" "empty" 1 (sql_data []).

Definition d_line : UserDefinition :=
  mkDef "l" "catA" "sql" "lines" 1
    (sql_data (s2u "line1" ++ [newline] ++ s2u "line2 needle here" ++ [newline])).

Definition opts_limit (l : nat) : SearchOptions := mkSearchOptions (Some l) None None None.

Definition ui_advanced : Orchestrator.ContentState :=
  Orchestrator.mkContentState (s2u "orders") Orchestrator.FilterAll (s2u "all")
    Orchestrator.ModeAdvanced (s2u "select;orders") Orchestrator.LogicAND.

Definition ui_short : Orchestrator.ContentState :=
  Orchestrator.mkContentState (s2u "a") Orchestrator.FilterAll (s2u "all")
    Orchestrator.ModeBasic [] Orchestrator.LogicAND.

Definition d_b1 : UserDefinition := mkDef "b" "catA" "sql" "second" 1 (sql_data (s2u "select b")).
Definition d_a1 : UserDefinition := mkDef "a" "catA" "sql" "first" 1 (sql_data (s2u "select a")).
Definition d_x2 : UserDefinition := mkDef "x" "catB" "sql" "other" 0 (sql_data (s2u "select x")).

(** A category and a parsed file for the file-tree runs. *)
Definition cat_A : Types.UserCategory :=
  Types.mkUserCategory (s2u "catA") (s2u "Reports") 1 None [] (s2u "Reports").

Definition parsed_A : Types.ParsedUserDefinition :=
  Types.mkParsedUserDefinition [cat_A] [d_b; d_x2; d_a; d_orders].

(** The service after indexing [d_a], [d_b] and [d_c]. *)
Definition st_abc : Service := buildIndex [d_a; d_b; d_c] initial.

End Examples.

(** ** Invariants used by the proofs *)

Module Invariants.

(** Not among the ids of [ids]. *)
Definition keep_other (ids : list jsstr) (x : SearchDocument) : bool :=
  negb (set_has ids (sd_definitionId x)).

(** Every entry of the hydration map is stored under its own id. *)
Definition map_wf (m : list (jsstr * UserDefinition)) : Prop :=
  forall k d, map_get m k = Some d -> definitionId d = k.

Definition rid (r : SearchResult) : jsstr := definitionId (sr_definition r).

(** A definition passes both filters of the options. *)
Definition passes (o : SearchOptions) (d : UserDefinition) : Prop :=
  filter_rejects (opt_definitionType o) (definitionType d) = false /\
  filter_rejects (opt_categoryId o) (categoryId d) = false.

(** The state [(seenIds, formattedResults)] of the loop of [search] once
    the fields [P] of the requested fields [L] are processed. *)
Definition loop_inv (fs_search : FsIndex -> Field -> jsstr -> nat -> list jsstr)
    (m : list (jsstr * UserDefinition)) (idx : FsIndex) (q : jsstr)
    (o : SearchOptions) (l : nat) (L P : list Field)
    (seen : list jsstr) (out : list SearchResult) : Prop :=
  map rid out = rev seen /\ NoDup seen /\
  (forall f', In f' P -> forall id d, In id (fs_search idx f' q l) ->
     map_get m id = Some d -> passes o d -> In id seen) /\
  (forall r, In r out -> exists mt, sr_matches r = [mt] /\
     first_hit_field fs_search idx q l L (rid r) = Some (m_field mt)).

End Invariants.
Import Invariants.

(** * Proofs *)

(** ** Strings and maps *)

Lemma str_eqb_eq (a b : jsstr) : str_eqb a b = true <-> a = b.
Proof.
  revert b; induction a as [|x a IH]; intros [|y b]; simpl;
    try (split; congruence).
  rewrite andb_true_iff, Z.eqb_eq, IH. split.
  - intros [-> ->]; reflexivity.
  - intros H; inversion H; auto.
Qed.

Lemma str_eqb_refl (a : jsstr) : str_eqb a a = true.
Proof. apply str_eqb_eq; reflexivity. Qed.

Lemma str_eqb_sym (a b : jsstr) : str_eqb a b = str_eqb b a.
Proof.
  destruct (str_eqb a b) eqn:E; symmetry.
  - apply str_eqb_eq in E; subst; apply str_eqb_refl.
  - apply not_true_iff_false; intros H; apply str_eqb_eq in H; subst.
    rewrite str_eqb_refl in E; discriminate.
Qed.

Lemma set_has_In (s : list jsstr) (k : jsstr) : set_has s k = true <-> In k s.
Proof.
  induction s as [|x s IH]; simpl.
  - split; [discriminate | tauto].
  - rewrite orb_true_iff, IH, str_eqb_eq. split; intros [H|H]; auto.
Qed.

Lemma map_get_set {V} (m : list (jsstr * V)) k v k' :
  map_get (map_set m k v) k' = if str_eqb k k' then Some v else map_get m k'.
Proof.
  induction m as [|[k0 v0] m IH]; simpl.
  - reflexivity.
  - destruct (str_eqb k0 k) eqn:E.
    + apply str_eqb_eq in E; subst. simpl.
      destruct (str_eqb k k'); reflexivity.
    + simpl. rewrite IH. destruct (str_eqb k k') eqn:E'; [|reflexivity].
      apply str_eqb_eq in E'; subst. rewrite E. reflexivity.
Qed.

Ltac solve_bool :=
  repeat match goal with
         | H : _ && _ = true |- _ => apply andb_true_iff in H as [? ?]
         | H : _ || _ = false |- _ => apply orb_false_iff in H as [? ?]
         end.

(** ** Lifecycle of the singleton *)

Lemma run_cons (st : Service) (c : Lifecycle.op) cs :
  Lifecycle.run st (c :: cs) = Lifecycle.run (Lifecycle.step st c) cs.
Proof. reflexivity. Qed.

Lemma isIndexed_run_without_build (cs : list Lifecycle.op) (st : Service) :
  isIndexed st = false ->
  forallb (fun c => negb (Lifecycle.is_build c)) cs = true ->
  isIndexed (Lifecycle.run st cs) = false.
Proof.
  revert st; induction cs as [|c cs IH]; intros st Hst Hcs; [exact Hst|].
  simpl in Hcs; apply andb_true_iff in Hcs as [Hc Hcs].
  rewrite run_cons. apply IH; [|exact Hcs].
  destruct c; simpl in *; try discriminate; auto.
Qed.

Lemma search_not_indexed fs_search (st : Service) q o :
  isIndexed st = false -> search fs_search st q o = Err IndexNotReady.
Proof.
  intros H; unfold search; rewrite H; destruct (index st); reflexivity.
Qed.

(** C4: from the initial state, or after [clear()], and as long as no
    [buildIndex] is called, [isReady()] is false and every [search] call
    fails with [IndexNotReady]. *)
Theorem search_fails_until_build fs_search (st : Service) (cs : list Lifecycle.op) :
  (st = initial \/ exists s, st = clear s) ->
  forallb (fun c => negb (Lifecycle.is_build c)) cs = true ->
  isReady (Lifecycle.run st cs) = false /\
  forall q o, search fs_search (Lifecycle.run st cs) q o = Err IndexNotReady.
Proof.
  intros Hst Hcs.
  assert (H0 : isIndexed st = false)
    by (destruct Hst as [->|[s ->]]; reflexivity).
  pose proof (isIndexed_run_without_build cs st H0 Hcs) as H.
  split; [exact H|]. intros q o; apply search_not_indexed; exact H.
Qed.

Lemma search_fails_until_build_witness :
  isReady (Lifecycle.run (clear (buildIndex [Examples.d_a] initial))
             [Lifecycle.OpIsReady; Lifecycle.OpSearch (s2u "foo") no_options]) = false /\
  search Examples.fs_substring
    (Lifecycle.run (clear (buildIndex [Examples.d_a] initial))
       [Lifecycle.OpIsReady; Lifecycle.OpSearch (s2u "foo") no_options])
    (s2u "foo") no_options = Err IndexNotReady.
Proof.
  destruct (search_fails_until_build Examples.fs_substring
              (clear (buildIndex [Examples.d_a] initial))
              [Lifecycle.OpIsReady; Lifecycle.OpSearch (s2u "foo") no_options])
    as [H1 H2].
  - right; eexists; reflexivity.
  - reflexivity.
  - split; [exact H1 | apply H2].
Defined.

(** ** Short queries *)

(** C8: a query shorter than two code units makes both orchestrators set
    an empty result list without calling [search], whatever the state of
    the index. *)
Theorem performSearch_short_query fs_search (st : Service)
    (ui : Orchestrator.ContentState) (ft : Orchestrator.FilterType) :
  (length (Orchestrator.searchQuery ui) < 2)%nat ->
  Orchestrator.performSearch fs_search st ui = ([], []) /\
  Orchestrator.dialogPerformSearch fs_search st (Orchestrator.searchQuery ui) ft = ([], []).
Proof.
  intros H. apply Nat.ltb_lt in H.
  unfold Orchestrator.performSearch, Orchestrator.dialogPerformSearch.
  rewrite H, orb_true_r. split; reflexivity.
Qed.

Lemma performSearch_short_query_witness :
  (length (Orchestrator.searchQuery Examples.ui_short) < 2)%nat /\
  Orchestrator.performSearch Examples.fs_substring initial Examples.ui_short = ([], []) /\
  Orchestrator.dialogPerformSearch Examples.fs_substring initial
    (Orchestrator.searchQuery Examples.ui_short) Orchestrator.FilterAll = ([], []).
Proof.
  assert (H : (length (Orchestrator.searchQuery Examples.ui_short) < 2)%nat)
    by (simpl; lia).
  split; [exact H|].
  exact (performSearch_short_query Examples.fs_substring initial
           Examples.ui_short Orchestrator.FilterAll H).
Defined.

(** ** Extracted content *)

Lemma digits_aux_not_nil fuel n acc : acc <> [] -> digits_aux fuel n acc <> [].
Proof.
  revert n acc; induction fuel as [|f IH]; intros n acc H; simpl; [exact H|].
  destruct (n / 10 =? 0); [discriminate | apply IH; discriminate].
Qed.

Lemma number_to_string_not_nil n : number_to_string n <> [].
Proof.
  unfold number_to_string. destruct (n <? 0); [discriminate|].
  simpl. destruct (n / 10 =? 0); [discriminate|].
  apply digits_aux_not_nil; discriminate.
Qed.

Lemma stringify_not_nil v : stringify v <> [].
Proof.
  unfold stringify. destruct v as [| [] | n | s | vs | ps]; simpl;
    try discriminate.
  - apply number_to_string_not_nil.
  - destruct vs; discriminate.
  - destruct ps; discriminate.
Qed.

Lemma truthy_string_not_nil v q : truthy_string v = Some q -> q <> [].
Proof.
  unfold truthy_string. destruct v as [[| | | s | |]|]; try discriminate.
  destruct s; intros H; inversion H; discriminate.
Qed.

(** C7 (as amended): [extractDefinitionContent] returns the [query] of an
    [sql] definition when it is a non-empty string, the [script] of a
    [javascript] definition when it is a non-empty string, and otherwise
    [JSON.stringify(definitionData, null, 2)], which lists the keys in the
    payload's own order; in every case the text is non-empty. *)
Theorem extractDefinitionContent_spec (d : UserDefinition) :
  (definitionType d = s2u "sql" -> forall q,
     elementProperty (definitionData d) (s2u "query") = Some (JStr q) ->
     q <> [] -> extractDefinitionContent d = q) /\
  (definitionType d = s2u "javascript" -> forall sc,
     elementProperty (definitionData d) (s2u "script") = Some (JStr sc) ->
     sc <> [] -> extractDefinitionContent d = sc) /\
  ((definitionType d = s2u "sql" ->
      truthy_string (elementProperty (definitionData d) (s2u "query")) = None) ->
   (definitionType d = s2u "javascript" ->
      truthy_string (elementProperty (definitionData d) (s2u "script")) = None) ->
   extractDefinitionContent d = stringify (definitionData d)) /\
  extractDefinitionContent d <> [].
Proof.
  unfold extractDefinitionContent.
  split; [|split; [|split]].
  - intros Ht q Hq Hne. rewrite Ht, str_eqb_refl, Hq.
    destruct q; [congruence | reflexivity].
  - intros Ht sc Hs Hne. rewrite Ht, str_eqb_refl, Hs.
    destruct sc; [congruence|]. simpl. reflexivity.
  - intros Hq Hs.
    destruct (str_eqb (definitionType d) (s2u "sql")) eqn:E1.
    + apply str_eqb_eq in E1. rewrite (Hq E1).
      destruct (str_eqb (definitionType d) (s2u "javascript")) eqn:E2;
        [rewrite E1 in E2; discriminate | reflexivity].
    + destruct (str_eqb (definitionType d) (s2u "javascript")) eqn:E2;
        [|reflexivity].
      apply str_eqb_eq in E2. rewrite (Hs E2). reflexivity.
  - destruct (if str_eqb (definitionType d) (s2u "sql")
              then truthy_string (elementProperty (definitionData d) (s2u "query"))
              else None) as [q|] eqn:E1.
    + destruct (str_eqb (definitionType d) (s2u "sql")); [|discriminate].
      exact (truthy_string_not_nil _ _ E1).
    + destruct (if str_eqb (definitionType d) (s2u "javascript")
                then truthy_string (elementProperty (definitionData d) (s2u "script"))
                else None) as [sc|] eqn:E2.
      * destruct (str_eqb (definitionType d) (s2u "javascript")); [|discriminate].
        exact (truthy_string_not_nil _ _ E2).
      * apply stringify_not_nil.
Qed.

Lemma extractDefinitionContent_spec_witness :
  definitionType Examples.d_a = s2u "sql" /\
  elementProperty (definitionData Examples.d_a) (s2u "query") = Some (JStr (s2u "select 1")) /\
  extractDefinitionContent Examples.d_a = s2u "select 1" /\
  extractDefinitionContent Examples.d_emptyq = stringify (definitionData Examples.d_emptyq).
Proof.
  destruct (extractDefinitionContent_spec Examples.d_a) as [Hsql _].
  destruct (extractDefinitionContent_spec Examples.d_emptyq) as [_ [_ [Hfb _]]].
  split; [reflexivity|]. split; [reflexivity|]. split.
  - apply Hsql; [reflexivity | reflexivity | discriminate].
  - apply Hfb; intros _; reflexivity.
Defined.

(** C7 as stated fails: an [sql] definition whose [query] is present but
    empty does not get that query back; it gets the JSON fallback. *)
Lemma extractDefinitionContent_empty_query :
  definitionType Examples.d_emptyq = s2u "sql" /\
  elementProperty (definitionData Examples.d_emptyq) (s2u "query") = Some (JStr []) /\
  extractDefinitionContent Examples.d_emptyq <> [].
Proof.
  split; [reflexivity|]. split; [reflexivity|].
  vm_compute. discriminate.
Qed.

(** ** Advanced-mode filtering *)

(** C1: the advanced filter of [routes/content.tsx] reads the properties
    [sqlQuery] and [javaScriptCode], which parsed definitions do not have,
    instead of the definition's content. An [sql] definition named
    "Orders report" whose query is "select * from orders", found by the
    query "orders" in its name, is dropped by the advanced filter
    "select;orders" with logic AND, although its name, content and snippet
    joined contain both keywords. *)
Theorem advanced_filter_ignores_content :
  let st := buildIndex [Examples.d_orders] initial in
  snd (Orchestrator.performSearch Examples.fs_substring st Examples.ui_advanced) = [] /\
  match search Examples.fs_substring st (s2u "orders")
          (Orchestrator.content_options Examples.ui_advanced) with
  | Ok [r] =>
      Orchestrator.spec_keep_result Orchestrator.LogicAND
        (Orchestrator.keywords_of (s2u "select;orders")) r
  | _ => false
  end = true.
Proof. split; vm_compute; reflexivity. Qed.

(** ** Line and column of a match *)

(** C5: the position is computed on the original text at the index found in
    the lowercased text. For the content made of U+0130, a newline and
    "ab", whose lowercase form is one code unit longer, searching "ab"
    reports column 2 although "ab" starts right after the newline
    (column 1). On text whose lowercase keeps its length, such as the
    scenario "line1\nline2 needle here\n", the position is right. *)
Theorem snippet_position_after_dotted_capital_i :
  extractDefinitionContent Examples.d_dotted = [304; newline; 97; 98] /\
  match search Examples.fs_substring (buildIndex [Examples.d_dotted] initial)
          (s2u "ab") (Examples.opts_limit 50) with
  | Ok [r] => map (fun m => (m_lineNumber m, m_column m)) (sr_matches r)
  | _ => []
  end = [(Some 2%nat, Some 2%nat)] /\
  match search Examples.fs_substring (buildIndex [Examples.d_line] initial)
          (s2u "needle") (Examples.opts_limit 50) with
  | Ok [r] => map (fun m => (m_lineNumber m, m_column m)) (sr_matches r)
  | _ => []
  end = [(Some 2%nat, Some 7%nat)].
Proof. split; [|split]; vm_compute; reflexivity. Qed.

(** ** Building the index *)

Lemma filter_filter_and {A} (f g : A -> bool) (l : list A) :
  filter f (filter g l) = filter (fun x => g x && f x) l.
Proof.
  induction l as [|x l IH]; simpl; [reflexivity|].
  destruct (g x); simpl; [destruct (f x); simpl|]; rewrite IH; reflexivity.
Qed.

Lemma filter_all_false {A} (f : A -> bool) (l : list A) :
  (forall x, In x l -> f x = false) -> filter f l = [].
Proof.
  induction l as [|x l IH]; intros H; simpl; [reflexivity|].
  rewrite (H x (or_introl eq_refl)). apply IH. intros y Hy; apply H; right; exact Hy.
Qed.

Lemma filter_all_true {A} (f : A -> bool) (l : list A) :
  (forall x, In x l -> f x = true) -> filter f l = l.
Proof.
  induction l as [|x l IH]; intros H; simpl; [reflexivity|].
  rewrite (H x (or_introl eq_refl)), IH; [reflexivity|].
  intros y Hy; apply H; right; exact Hy.
Qed.

Lemma build_fold (docs : list UserDefinition) idx m :
  fold_left build_step docs (idx, m) =
  (fold_left fs_add (map toSearchDocument docs) idx,
   fold_left (fun m d => map_set m (definitionId d) d) docs m).
Proof.
  revert idx m; induction docs as [|d docs IH]; intros idx m; simpl;
    [reflexivity | apply IH].
Qed.

Lemma fold_fs_add (ds : list SearchDocument) (idx : FsIndex) :
  fold_left fs_add ds idx =
  filter (keep_other (map sd_definitionId ds)) idx ++ last_entries ds.
Proof.
  revert idx; induction ds as [|d ds IH]; intros idx; simpl.
  - rewrite app_nil_r. symmetry; apply filter_all_true; reflexivity.
  - rewrite IH. unfold fs_add, fs_remove.
    rewrite filter_app, filter_filter_and, <- app_assoc. f_equal.
    + apply filter_ext. intros x. unfold keep_other. simpl.
      rewrite (str_eqb_sym (sd_definitionId d)).
      destruct (str_eqb (sd_definitionId x) (sd_definitionId d)); reflexivity.
    + unfold keep_other; simpl.
      destruct (set_has (map sd_definitionId ds) (sd_definitionId d)); reflexivity.
Qed.

Lemma last_entries_ids (ds : list SearchDocument) x :
  In x (last_entries ds) -> In (sd_definitionId x) (map sd_definitionId ds).
Proof.
  induction ds as [|d ds IH]; simpl; [tauto|].
  destruct (set_has _ _); [intros H; right; auto|].
  intros [<-|H]; [left; reflexivity | right; auto].
Qed.

Lemma ids_toSearchDocument (docs : list UserDefinition) :
  map sd_definitionId (map toSearchDocument docs) = map definitionId docs.
Proof. rewrite map_map. reflexivity. Qed.

(** C3 (as amended): [buildIndex] keeps the existing FlexSearch index
    (creating an empty one only when there is none); for each given
    document it replaces any entry with the same id by the
    document's [definitionName], extracted content, [categoryId] and
    [definitionType], while entries of other ids left by earlier builds
    stay. The hydration map is rebuilt from the given documents alone.
    Calling [buildIndex] twice in a row with the same list leaves the
    service in the same state, so every search gives the same results. *)
Theorem buildIndex_spec (docs : list UserDefinition) (st : Service) :
  let prior := match index st with Some i => i | None => [] end in
  buildIndex docs st =
    mkService
      (Some (filter (keep_other (map definitionId docs)) prior
             ++ last_entries (map toSearchDocument docs)))
      (fold_left (fun m d => map_set m (definitionId d) d) docs [])
      true /\
  buildIndex docs (buildIndex docs st) = buildIndex docs st /\
  (forall fs_search q o,
     search fs_search (buildIndex docs (buildIndex docs st)) q o =
     search fs_search (buildIndex docs st) q o).
Proof.
  assert (Hb : forall s,
    buildIndex docs s =
    mkService
      (Some (filter (keep_other (map definitionId docs))
               (match index s with Some i => i | None => [] end)
             ++ last_entries (map toSearchDocument docs)))
      (fold_left (fun m d => map_set m (definitionId d) d) docs [])
      true).
  { intros s. unfold buildIndex, initIndex.
    destruct (index s) as [i|] eqn:E; simpl; rewrite ?E, build_fold;
      simpl; rewrite fold_fs_add, ids_toSearchDocument; reflexivity. }
  assert (Hidem : buildIndex docs (buildIndex docs st) = buildIndex docs st).
  { rewrite (Hb (buildIndex docs st)), (Hb st). simpl. f_equal. f_equal.
    rewrite filter_app, filter_filter_and.
    rewrite (filter_all_false _ (last_entries _)), app_nil_r.
    - f_equal. apply filter_ext. intros x. apply andb_diag.
    - intros x Hx. apply last_entries_ids in Hx.
      rewrite ids_toSearchDocument in Hx. unfold keep_other.
      apply set_has_In in Hx. rewrite Hx. reflexivity. }
  split; [apply Hb|]. split; [exact Hidem|].
  intros fs_search q o. rewrite Hidem. reflexivity.
Qed.

(** C3 as stated fails: a second [buildIndex] does not discard the entries
    of the first. After indexing [a] ("foo a") and then [c] ("foo c"),
    the stale entry [a] still takes the only slot of a [limit: 1] search
    for "foo", which returns nothing, while an index built from [c] alone
    returns [c]. *)
Lemma buildIndex_keeps_prior_entries :
  index (buildIndex [Examples.d_c] (buildIndex [Examples.d_a] initial)) <>
  index (buildIndex [Examples.d_c] initial) /\
  search Examples.fs_substring
    (buildIndex [Examples.d_c] (buildIndex [Examples.d_a] initial))
    (s2u "foo") (Examples.opts_limit 1) = Ok [] /\
  match search Examples.fs_substring (buildIndex [Examples.d_c] initial)
          (s2u "foo") (Examples.opts_limit 1) with
  | Ok [r] => str_eqb (definitionId (sr_definition r)) (s2u "c")
  | _ => false
  end = true.
Proof.
  split; [|split].
  - vm_compute. intros H; inversion H.
  - vm_compute. reflexivity.
  - vm_compute. reflexivity.
Qed.

(** ** Hydration of search results *)

Lemma run_without_mutation (cs : list Lifecycle.op) (st : Service) :
  forallb (fun c => negb (Lifecycle.is_mutation c)) cs = true ->
  Lifecycle.run st cs = st.
Proof.
  revert st; induction cs as [|c cs IH]; intros st H; [reflexivity|].
  simpl in H; apply andb_true_iff in H as [Hc H].
  rewrite run_cons. destruct c; simpl in Hc; try discriminate; apply IH; exact H.
Qed.

Lemma search_item_cases m q o f (acc : list jsstr * list SearchResult) id :
  search_item m q o f acc id = acc \/
  exists d r,
    map_get m id = Some d /\ set_has (fst acc) id = false /\
    filter_rejects (opt_definitionType o) (definitionType d) = false /\
    filter_rejects (opt_categoryId o) (categoryId d) = false /\
    sr_definition r = d /\
    (exists snippet lineNumber column,
       sr_matches r = [mkMatch f snippet lineNumber column (Some (length q))]) /\
    search_item m q o f acc id = (id :: fst acc, snd acc ++ [r]).
Proof.
  destruct acc as [seen formatted]. unfold search_item.
  destruct (set_has seen id) eqn:Hs; [left; reflexivity|].
  destruct (map_get m id) as [d|] eqn:Hd; [|left; reflexivity].
  destruct (filter_rejects (opt_definitionType o) (definitionType d)) eqn:Ht;
    [left; reflexivity|].
  destruct (filter_rejects (opt_categoryId o) (categoryId d)) eqn:Hc;
    [left; reflexivity|].
  destruct (createSnippetWithPosition _ q) as [[snippet ln] col].
  right. exists d, (mkSearchResult d [mkMatch f snippet ln col (Some (length q))] 1).
  split; [reflexivity|]. split; [exact Hs|]. split; [exact Ht|].
  split; [exact Hc|]. split; [reflexivity|]. split; [|reflexivity].
  exists snippet, ln, col; reflexivity.
Qed.

Lemma search_item_unmapped m q o f acc id :
  map_get m id = None -> search_item m q o f acc id = acc.
Proof.
  intros H. destruct acc as [seen formatted]. unfold search_item.
  destruct (set_has seen id); [reflexivity|]. rewrite H. reflexivity.
Qed.

(** Every result of the loop hydrates from [m]. *)
Lemma search_loop_from_map (m : list (jsstr * UserDefinition)) q o
    (P : UserDefinition -> Prop) :
  (forall id d, map_get m id = Some d -> P d) ->
  forall results acc,
  (forall r, In r (snd acc) -> P (sr_definition r)) ->
  forall r, In r (snd (fold_left (search_field m q o) results acc)) ->
  P (sr_definition r).
Proof.
  intros Hm results. induction results as [|[f ids] results IH]; intros acc Hacc;
    [exact Hacc|].
  simpl. apply IH. unfold search_field; simpl.
  revert acc Hacc. induction ids as [|id ids IHi]; intros acc Hacc; [exact Hacc|].
  simpl. apply IHi.
  destruct (search_item_cases m q o f acc id)
    as [->|[d [r [Hd [_ [_ [_ [Hr [_ ->]]]]]]]]]; [exact Hacc|].
  simpl. intros r' Hr'. apply in_app_iff in Hr' as [Hr'|[<-|[]]]; auto.
  rewrite Hr. exact (Hm _ _ Hd).
Qed.

Lemma map_get_fold_from (docs : list UserDefinition) m0 k d :
  map_get (fold_left (fun m x => map_set m (definitionId x) x) docs m0) k = Some d ->
  In d docs \/ map_get m0 k = Some d.
Proof.
  revert m0; induction docs as [|x docs IH]; intros m0 H; simpl in *; [right; exact H|].
  destruct (IH _ H) as [Hin|Hget]; [left; right; exact Hin|].
  rewrite map_get_set in Hget. destruct (str_eqb (definitionId x) k).
  - inversion Hget; subst; left; left; reflexivity.
  - right; exact Hget.
Qed.

Lemma search_field_hits_in_map m q o f (ids : list jsstr) acc :
  fold_left (search_item m q o f)
    (filter (fun id => match map_get m id with Some _ => true | None => false end) ids)
    acc =
  fold_left (search_item m q o f) ids acc.
Proof.
  revert acc; induction ids as [|id ids IHi]; intros acc; [reflexivity|].
  simpl. destruct (map_get m id) eqn:Hid; simpl; rewrite IHi; [reflexivity|].
  rewrite search_item_unmapped; auto.
Qed.

Lemma search_loop_hits_in_map m q o (fs_search : FsIndex -> Field -> jsstr -> nat -> list jsstr)
    idx l fields acc :
  fold_left (search_field m q o) (searchAsync (hits_in_map m fs_search) idx q l fields) acc =
  fold_left (search_field m q o) (searchAsync fs_search idx q l fields) acc.
Proof.
  revert acc; induction fields as [|f fields IH]; intros acc; [reflexivity|].
  simpl. rewrite IH. f_equal. unfold search_field, hits_in_map; simpl.
  apply search_field_hits_in_map.
Qed.

(** C10: after [buildIndex(docs)], and as long as neither [buildIndex] nor
    [clear] is called again, every [search] succeeds whatever ids the
    engine returns; every result's definition is one of [docs]; and hits
    whose id has no entry in the hydration map are skipped: the results
    are those obtained from an engine that never returned them. *)
Theorem search_hydrates_from_last_build fs_search (docs : list UserDefinition)
    (st : Service) (cs : list Lifecycle.op) :
  forallb (fun c => negb (Lifecycle.is_mutation c)) cs = true ->
  let st' := Lifecycle.run (buildIndex docs st) cs in
  forall q o, exists rs,
    search fs_search st' q o = Ok rs /\
    (forall r, In r rs -> In (sr_definition r) docs) /\
    search (hits_in_map (definitionsMap st') fs_search) st' q o = Ok rs.
Proof.
  intros Hcs st' q o. unfold st'. rewrite (run_without_mutation cs _ Hcs).
  destruct (buildIndex_spec docs st) as [Hb _]. rewrite Hb.
  eexists. split; [reflexivity|]. split.
  - intros r Hr.
    refine (search_loop_from_map _ _ _ (fun d => In d docs) _ _ ([], []) _ r Hr).
    + intros id d Hd. destruct (map_get_fold_from docs [] id d Hd) as [H|H];
        [exact H | discriminate].
    + intros r' [].
  - unfold search; simpl. rewrite search_loop_hits_in_map. reflexivity.
Qed.

Lemma search_hydrates_from_last_build_witness :
  forallb (fun c => negb (Lifecycle.is_mutation c))
    [Lifecycle.OpSearch (s2u "foo") no_options; Lifecycle.OpIsReady] = true /\
  exists rs,
    search Examples.fs_substring
      (Lifecycle.run (buildIndex [Examples.d_c] (buildIndex [Examples.d_a] initial))
         [Lifecycle.OpSearch (s2u "foo") no_options; Lifecycle.OpIsReady])
      (s2u "foo") (Examples.opts_limit 1) = Ok rs /\
    (forall r, In r rs -> In (sr_definition r) [Examples.d_c]).
Proof.
  assert (H : forallb (fun c => negb (Lifecycle.is_mutation c))
                [Lifecycle.OpSearch (s2u "foo") no_options; Lifecycle.OpIsReady] = true)
    by reflexivity.
  split; [exact H|].
  destruct (search_hydrates_from_last_build Examples.fs_substring [Examples.d_c]
              (buildIndex [Examples.d_a] initial) _ H (s2u "foo") (Examples.opts_limit 1))
    as [rs [H1 [H2 _]]].
  exists rs; split; [exact H1 | exact H2].
Defined.

(** ** Size of the result and the filters *)

Lemma search_item_length m q o f acc id :
  (length (snd (search_item m q o f acc id)) <= S (length (snd acc)))%nat.
Proof.
  destruct (search_item_cases m q o f acc id)
    as [->|[d [r [_ [_ [_ [_ [_ [_ ->]]]]]]]]]; simpl; [lia|].
  rewrite length_app; simpl; lia.
Qed.

Lemma search_field_length m q o acc (fr : Field * list jsstr) :
  (length (snd (search_field m q o acc fr)) <= length (snd acc) + length (snd fr))%nat.
Proof.
  destruct fr as [f ids]. unfold search_field; simpl.
  revert acc; induction ids as [|id ids IH]; intros acc; simpl; [lia|].
  specialize (IH (search_item m q o f acc id)).
  pose proof (search_item_length m q o f acc id). lia.
Qed.

Lemma search_loop_length fs_search m q o idx l fields acc :
  (forall f, (length (fs_search idx f q l) <= l)%nat) ->
  (length (snd (fold_left (search_field m q o) (searchAsync fs_search idx q l fields) acc))
   <= length (snd acc) + length fields * l)%nat.
Proof.
  intros Hl. revert acc; induction fields as [|f fields IH]; intros acc; simpl; [lia|].
  specialize (IH (search_field m q o acc (f, fs_search idx f q l))).
  pose proof (search_field_length m q o acc (f, fs_search idx f q l)) as H.
  simpl in H. specialize (Hl f). lia.
Qed.

(** Every result of the loop satisfies [Q] when every pushed result does. *)
Lemma search_loop_invariant (m : list (jsstr * UserDefinition)) q o
    (Q : SearchResult -> Prop) :
  (forall f id d r snippet lineNumber column,
     map_get m id = Some d -> passes o d -> sr_definition r = d ->
     sr_matches r = [mkMatch f snippet lineNumber column (Some (length q))] -> Q r) ->
  forall results acc,
  (forall r, In r (snd acc) -> Q r) ->
  forall r, In r (snd (fold_left (search_field m q o) results acc)) -> Q r.
Proof.
  intros Hq results. induction results as [|[f ids] results IH]; intros acc Hacc;
    [exact Hacc|].
  simpl. apply IH. unfold search_field; simpl.
  revert acc Hacc. induction ids as [|id ids IHi]; intros acc Hacc; [exact Hacc|].
  simpl. apply IHi.
  destruct (search_item_cases m q o f acc id)
    as [->|[d [r [Hd [_ [Ht [Hc [Hr [[sn [ln [col Hmt]]] ->]]]]]]]]]; [exact Hacc|].
  simpl. intros r' Hr'. apply in_app_iff in Hr' as [Hr'|[<-|[]]]; auto.
  eapply Hq; eauto. split; assumption.
Qed.

Lemma filter_rejects_false (flt : option jsstr) v t :
  filter_rejects flt v = false -> flt = Some t -> t <> [] -> v = t.
Proof.
  intros H -> Ht. destruct t as [|c t]; [congruence|]. simpl in H.
  apply negb_false_iff, str_eqb_eq in H. exact H.
Qed.

Lemma search_loop_hits fs_search m q o idx l fields acc :
  (length (snd (fold_left (search_field m q o) (searchAsync fs_search idx q l fields) acc))
   <= length (snd acc)
      + list_sum (map (fun f => length (fs_search idx f q l)) fields))%nat.
Proof.
  revert acc; induction fields as [|f fields IH]; intros acc; simpl; [lia|].
  specialize (IH (search_field m q o acc (f, fs_search idx f q l))).
  pose proof (search_field_length m q o acc (f, fs_search idx f q l)) as H.
  simpl in H. lia.
Qed.

(** C2 (as amended): [search] asks FlexSearch for [limit] hits (default
    50) once per searched field (default [definitionName] and [content])
    and never truncates the merged list: it returns at most as many
    results as FlexSearch returned hits over the searched fields, not at
    most [limit]; and every result has the requested [definitionType] and
    [categoryId] whenever these are given as non-empty strings. *)
Theorem search_size_and_filters fs_search (st : Service) (q : jsstr)
    (o : SearchOptions) (rs : list SearchResult) :
  search fs_search st q o = Ok rs ->
  (exists idx, index st = Some idx /\
     (length rs <= list_sum (map (fun f => length (fs_search idx f q (limit_of o)))
                                 (fields_of o)))%nat) /\
  forall r, In r rs ->
    (forall t, opt_definitionType o = Some t -> t <> [] ->
       definitionType (sr_definition r) = t) /\
    (forall c, opt_categoryId o = Some c -> c <> [] ->
       categoryId (sr_definition r) = c).
Proof.
  intros Hs. unfold search in Hs.
  destruct (index st) as [idx|]; [|discriminate].
  destruct (isIndexed st); [|discriminate].
  inversion Hs as [Hrs]; clear Hs.
  split.
  - exists idx. split; [reflexivity|].
    pose proof (search_loop_hits fs_search (definitionsMap st) q o idx
                  (limit_of o) (fields_of o) ([], [])) as H.
    simpl in H. exact H.
  - intros r Hr.
    refine (search_loop_invariant (definitionsMap st) q o
      (fun r => (forall t, opt_definitionType o = Some t -> t <> [] ->
                  definitionType (sr_definition r) = t) /\
                (forall c, opt_categoryId o = Some c -> c <> [] ->
                  categoryId (sr_definition r) = c))
      _ _ ([], []) _ r Hr).
    + intros f id d r' sn ln col _ [Ht Hc] Hd _. rewrite Hd. split.
      * intros t Ho Hne. exact (filter_rejects_false _ _ _ Ht Ho Hne).
      * intros c Ho Hne. exact (filter_rejects_false _ _ _ Hc Ho Hne).
    + intros r' [].
Qed.

Lemma search_size_and_filters_witness :
  exists rs,
    search Examples.fs_substring (buildIndex [Examples.d_a; Examples.d_b] initial)
      (s2u "foo") (Examples.opts_limit 1) = Ok rs /\
    (exists idx, index (buildIndex [Examples.d_a; Examples.d_b] initial) = Some idx /\
       (length rs <= list_sum (map (fun f => length (Examples.fs_substring idx f (s2u "foo")
                                      (limit_of (Examples.opts_limit 1))))
                                   (fields_of (Examples.opts_limit 1))))%nat).
Proof.
  destruct (search Examples.fs_substring (buildIndex [Examples.d_a; Examples.d_b] initial)
              (s2u "foo") (Examples.opts_limit 1)) as [rs|e] eqn:Hs;
    [|vm_compute in Hs; discriminate].
  exists rs. split; [reflexivity|].
  exact (proj1 (search_size_and_filters Examples.fs_substring _ _ _ rs Hs)).
Defined.

(** C2 as stated fails: with [limit: 1] the query "foo" finds [a] by its
    name and [b] by its content, and both are returned; and an empty
    [categoryId] filter is falsy, so it filters nothing. *)
Lemma search_exceeds_limit :
  ~ (forall st q o rs,
       search Examples.fs_substring st q o = Ok rs ->
       (length rs <= limit_of o)%nat /\
       forall r, In r rs -> forall c, opt_categoryId o = Some c ->
         categoryId (sr_definition r) = c).
Proof.
  intros H.
  destruct (H (buildIndex [Examples.d_a; Examples.d_b] initial) (s2u "foo")
              (Examples.opts_limit 1) _ eq_refl) as [Hlen _].
  vm_compute in Hlen. lia.
Qed.

Lemma search_ignores_empty_category :
  match search Examples.fs_substring (buildIndex [Examples.d_a] initial) (s2u "foo")
          (mkSearchOptions None None None (Some [])) with
  | Ok [r] => categoryId (sr_definition r)
  | _ => []
  end = s2u "catA".
Proof. vm_compute. reflexivity. Qed.

(** ** One result per definition, attributed to the first field *)

Lemma map_wf_set (m : list (jsstr * UserDefinition)) d :
  map_wf m -> map_wf (map_set m (definitionId d) d).
Proof.
  intros Hm k d' H. rewrite map_get_set in H.
  destruct (str_eqb (definitionId d) k) eqn:E.
  - inversion H; subst. apply str_eqb_eq in E; exact E.
  - exact (Hm _ _ H).
Qed.

Lemma map_wf_fold (docs : list UserDefinition) m :
  map_wf m -> map_wf (fold_left (fun m d => map_set m (definitionId d) d) docs m).
Proof.
  revert m; induction docs as [|d docs IH]; intros m Hm; simpl; [exact Hm|].
  apply IH, map_wf_set, Hm.
Qed.

Lemma map_wf_run (cs : list Lifecycle.op) (st : Service) :
  map_wf (definitionsMap st) -> map_wf (definitionsMap (Lifecycle.run st cs)).
Proof.
  revert st; induction cs as [|c cs IH]; intros st Hst; [exact Hst|].
  rewrite run_cons. apply IH. destruct c; simpl; try exact Hst.
  - rewrite (proj1 (buildIndex_spec docs st)). simpl.
    apply map_wf_fold. intros k d H; discriminate.
  - intros k d H; discriminate.
Qed.

Lemma first_hit_field_app fs_search idx q l (P S : list Field) f id :
  (forall f', In f' P -> ~ In id (fs_search idx f' q l)) ->
  In id (fs_search idx f q l) ->
  first_hit_field fs_search idx q l (P ++ f :: S) id = Some f.
Proof.
  intros HP Hf. induction P as [|f' P IH]; simpl.
  - apply set_has_In in Hf. rewrite Hf. reflexivity.
  - destruct (set_has (fs_search idx f' q l) id) eqn:E.
    + exfalso. apply (HP f' (or_introl eq_refl)). apply set_has_In; exact E.
    + apply IH. intros f'' Hf''. apply HP; right; exact Hf''.
Qed.

Section Dedup.

Variable fs_search : FsIndex -> Field -> jsstr -> nat -> list jsstr.
Variables (m : list (jsstr * UserDefinition)) (idx : FsIndex) (q : jsstr)
  (o : SearchOptions) (l : nat) (L : list Field).
Hypothesis Hm : map_wf m.

Lemma dedup_item P f S seen out id :
  L = P ++ f :: S -> In id (fs_search idx f q l) ->
  loop_inv fs_search m idx q o l L P seen out ->
  let acc := search_item m q o f (seen, out) id in
  loop_inv fs_search m idx q o l L P (fst acc) (snd acc) /\
  incl seen (fst acc) /\
  (forall d, map_get m id = Some d -> passes o d -> In id (fst acc)).
Proof.
  intros HL Hid [Hrid [Hnd [Hcov Hout]]]. unfold search_item.
  destruct (set_has seen id) eqn:Hs.
  { split; [repeat split; assumption|]. split; [intros x Hx; exact Hx|].
    intros d _ _. apply set_has_In; exact Hs. }
  destruct (map_get m id) as [d|] eqn:Hd.
  2:{ split; [repeat split; assumption|]. split; [intros x Hx; exact Hx|].
      intros d' H; discriminate. }
  destruct (filter_rejects (opt_definitionType o) (definitionType d)) eqn:Ht.
  { split; [repeat split; assumption|]. split; [intros x Hx; exact Hx|].
    intros d' H [Ht' _]. inversion H; subst. congruence. }
  destruct (filter_rejects (opt_categoryId o) (categoryId d)) eqn:Hc.
  { split; [repeat split; assumption|]. split; [intros x Hx; exact Hx|].
    intros d' H [_ Hc']. inversion H; subst. congruence. }
  destruct (createSnippetWithPosition _ q) as [[snippet ln] col]. simpl.
  assert (Hnot : ~ In id seen)
    by (intros H; apply set_has_In in H; congruence).
  split; [|split].
  - split; [|split; [|split]].
    + rewrite map_app, Hrid. simpl. unfold rid at 1; simpl. rewrite (Hm _ _ Hd).
      reflexivity.
    + constructor; assumption.
    + intros f' Hf' id' d' Hid' Hd' Hp. right. exact (Hcov f' Hf' id' d' Hid' Hd' Hp).
    + intros r Hr. apply in_app_iff in Hr as [Hr|[<-|[]]]; [exact (Hout r Hr)|].
      eexists; split; [reflexivity|]. simpl. unfold rid; simpl.
      rewrite (Hm _ _ Hd), HL. apply first_hit_field_app; [|exact Hid].
      intros f' Hf' Hin. apply Hnot. apply (Hcov f' Hf' id d Hin Hd). split; assumption.
  - intros x Hx; right; exact Hx.
  - intros _ _ _; left; reflexivity.
Qed.

Lemma dedup_field P f S ids seen out :
  L = P ++ f :: S ->
  (forall id, In id ids -> In id (fs_search idx f q l)) ->
  loop_inv fs_search m idx q o l L P seen out ->
  let acc := fold_left (search_item m q o f) ids (seen, out) in
  loop_inv fs_search m idx q o l L P (fst acc) (snd acc) /\
  incl seen (fst acc) /\
  (forall id d, In id ids -> map_get m id = Some d -> passes o d -> In id (fst acc)).
Proof.
  intros HL. revert seen out; induction ids as [|id ids IH]; intros seen out Hids Hinv.
  - simpl. split; [exact Hinv|]. split; [intros x Hx; exact Hx | intros id d []].
  - cbn [fold_left].
    destruct (dedup_item P f S seen out id HL (Hids id (or_introl eq_refl)) Hinv)
      as [Hinv1 [Hincl1 Hid1]].
    destruct (search_item m q o f (seen, out) id) as [seen1 out1] eqn:E.
    simpl in Hinv1, Hincl1, Hid1.
    destruct (IH seen1 out1 (fun x Hx => Hids x (or_intror Hx)) Hinv1)
      as [Hinv2 [Hincl2 Hids2]].
    split; [exact Hinv2|]. split; [intros x Hx; apply Hincl2, Hincl1, Hx|].
    intros id' d [<-|Hin] Hd Hp; [apply Hincl2; exact (Hid1 d Hd Hp)|].
    exact (Hids2 id' d Hin Hd Hp).
Qed.

Lemma dedup_fields (S P : list Field) seen out :
  L = P ++ S ->
  loop_inv fs_search m idx q o l L P seen out ->
  let acc := fold_left (search_field m q o) (searchAsync fs_search idx q l S) (seen, out) in
  loop_inv fs_search m idx q o l L L (fst acc) (snd acc).
Proof.
  revert P seen out; induction S as [|f S IH]; intros P seen out HL Hinv.
  - simpl. rewrite app_nil_r in HL. subst L. exact Hinv.
  - cbn [fold_left searchAsync map].
    change (search_field m q o (seen, out) (f, fs_search idx f q l))
      with (fold_left (search_item m q o f) (fs_search idx f q l) (seen, out)).
    destruct (dedup_field P f S (fs_search idx f q l) seen out HL (fun x Hx => Hx) Hinv)
      as [[Hrid [Hnd [Hcov Hout]]] [Hincl Hnew]].
    destruct (fold_left (search_item m q o f) (fs_search idx f q l) (seen, out))
      as [seen1 out1] eqn:E.
    simpl in Hrid, Hnd, Hcov, Hout, Hincl, Hnew.
    apply (IH (P ++ [f])); [rewrite <- app_assoc; exact HL|].
    split; [exact Hrid|]. split; [exact Hnd|]. split; [|exact Hout].
    intros f' Hf' id d Hid Hd Hp. apply in_app_iff in Hf' as [Hf'|[<-|[]]].
    + exact (Hcov f' Hf' id d Hid Hd Hp).
    + exact (Hnew id d Hid Hd Hp).
Qed.

End Dedup.

(** C6 (as amended): on every state the service can reach, a successful
    [search] returns each definition id at most once, with a single match
    whose field is the first of the requested fields (by default
    [definitionName] then [content], the only fields searched when no
    [fields] option is given) in whose FlexSearch hit list, cut at
    [limit], the id occurs. *)
Theorem search_one_result_per_id fs_search (cs : list Lifecycle.op) q o rs idx :
  let st := Lifecycle.run initial cs in
  index st = Some idx ->
  search fs_search st q o = Ok rs ->
  NoDup (map (fun r => definitionId (sr_definition r)) rs) /\
  (forall r, In r rs -> exists mt, sr_matches r = [mt] /\
     first_hit_field fs_search idx q (limit_of o) (fields_of o)
       (definitionId (sr_definition r)) = Some (m_field mt)) /\
  fields_of (mkSearchOptions (opt_limit o) None (opt_definitionType o) (opt_categoryId o))
    = [FdefinitionName; Fcontent].
Proof.
  intros st Hidx Hs. unfold search in Hs. rewrite Hidx in Hs.
  destruct (isIndexed st); [|discriminate]. inversion Hs as [Hrs]; clear Hs.
  assert (Hwf : map_wf (definitionsMap st))
    by (apply map_wf_run; intros k d H; discriminate).
  assert (Hinv0 : loop_inv fs_search (definitionsMap st) idx q o (limit_of o)
                    (fields_of o) [] [] []).
  { split; [reflexivity|]. split; [constructor|]. split; [intros _ []|intros _ []]. }
  destruct (dedup_fields fs_search (definitionsMap st) idx q o (limit_of o) (fields_of o)
              Hwf (fields_of o) [] [] [] eq_refl Hinv0) as [Hrid [Hnd [_ Hout]]].
  split; [|split; [|reflexivity]].
  - change (fun r => definitionId (sr_definition r)) with rid. rewrite Hrid.
    apply NoDup_rev; exact Hnd.
  - exact Hout.
Qed.

Lemma search_one_result_per_id_witness :
  exists idx rs,
    index (Lifecycle.run initial [Lifecycle.OpBuild [Examples.d_a; Examples.d_b]]) = Some idx /\
    search Examples.fs_substring
      (Lifecycle.run initial [Lifecycle.OpBuild [Examples.d_a; Examples.d_b]])
      (s2u "foo") (Examples.opts_limit 1) = Ok rs /\
    NoDup (map (fun r => definitionId (sr_definition r)) rs).
Proof.
  destruct (index (Lifecycle.run initial [Lifecycle.OpBuild [Examples.d_a; Examples.d_b]]))
    as [idx|] eqn:Hi; [|vm_compute in Hi; discriminate].
  destruct (search Examples.fs_substring
              (Lifecycle.run initial [Lifecycle.OpBuild [Examples.d_a; Examples.d_b]])
              (s2u "foo") (Examples.opts_limit 1)) as [rs|e] eqn:Hs;
    [|vm_compute in Hs; discriminate].
  exists idx, rs. split; [reflexivity|]. split; [reflexivity|].
  exact (proj1 (search_one_result_per_id Examples.fs_substring
                  [Lifecycle.OpBuild [Examples.d_a; Examples.d_b]]
                  (s2u "foo") (Examples.opts_limit 1) rs idx Hi Hs)).
Defined.

(** C6 as stated fails: [b] ("foo b", query "select foo") matches "foo"
    in both fields, yet with [limit: 1] the name hits are cut to [a] and
    [b] is reported for [content]; and with [fields: ['content',
    'definitionName']] the content match comes first. *)
Lemma search_attribution_follows_hit_lists :
  let st := buildIndex [Examples.d_a; Examples.d_b] initial in
  match index st with
  | Some idx =>
      set_has (Examples.fs_substring idx FdefinitionName (s2u "foo") 50) (s2u "b")
      && set_has (Examples.fs_substring idx Fcontent (s2u "foo") 50) (s2u "b")
  | None => false
  end = true /\
  match search Examples.fs_substring st (s2u "foo") (Examples.opts_limit 1) with
  | Ok rs => map (fun r => (definitionId (sr_definition r), map m_field (sr_matches r))) rs
  | Err _ => []
  end = [(s2u "a", [FdefinitionName]); (s2u "b", [Fcontent])] /\
  match search Examples.fs_substring st (s2u "foo")
          (mkSearchOptions None (Some [Fcontent; FdefinitionName]) None None) with
  | Ok rs => map (fun r => (definitionId (sr_definition r), map m_field (sr_matches r))) rs
  | Err _ => []
  end = [(s2u "b", [Fcontent]); (s2u "a", [FdefinitionName])].
Proof. split; [|split]; vm_compute; reflexivity. Qed.

(** ** Definitions of a category *)

Module IDBFacts.
Import IDB.

Lemma key_compare_eq a b : key_compare a b = Eq <-> a = b.
Proof.
  revert b; induction a as [|x a IH]; intros [|y b]; simpl; try (split; congruence).
  destruct (Z.compare x y) eqn:E.
  - apply Z.compare_eq_iff in E; subst. rewrite IH. split; congruence.
  - split; [discriminate|]. intros H; inversion H; subst. rewrite Z.compare_refl in E.
    discriminate.
  - split; [discriminate|]. intros H; inversion H; subst. rewrite Z.compare_refl in E.
    discriminate.
Qed.

Lemma key_compare_antisym a b : key_compare b a = CompOpp (key_compare a b).
Proof.
  revert b; induction a as [|x a IH]; intros [|y b]; simpl; try reflexivity.
  rewrite (Z.compare_antisym x y). destruct (Z.compare x y); simpl; auto.
Qed.

Lemma key_lt_trans a b c : key_lt a b -> key_lt b c -> key_lt a c.
Proof.
  unfold key_lt. revert b c; induction a as [|x a IH]; intros [|y b] [|z c]; simpl;
    intros H1 H2; try discriminate; auto.
  destruct (Z.compare x y) eqn:Exy; try discriminate;
  destruct (Z.compare y z) eqn:Eyz; try discriminate.
  - apply Z.compare_eq_iff in Exy; apply Z.compare_eq_iff in Eyz; subst.
    rewrite Z.compare_refl. eauto.
  - apply Z.compare_eq_iff in Exy; subst. rewrite Eyz. reflexivity.
  - apply Z.compare_eq_iff in Eyz; subst. rewrite Exy. reflexivity.
  - rewrite Z.compare_lt_iff in Exy, Eyz.
    rewrite (proj2 (Z.compare_lt_iff x z)) by lia. reflexivity.
Qed.

Definition by_key (x y : UserDefinition) : Prop := key_lt (definitionId x) (definitionId y).

Lemma put_hd (x d : UserDefinition) store :
  HdRel by_key x store -> by_key x d -> HdRel by_key x (put store d).
Proof.
  intros Hhd Hxd. destruct store as [|y r]; simpl; [constructor; exact Hxd|].
  destruct (key_compare (definitionId d) (definitionId y)); constructor;
    [exact Hxd | exact Hxd | inversion Hhd; assumption].
Qed.

Lemma put_sorted store d : Sorted by_key store -> Sorted by_key (put store d).
Proof.
  induction store as [|x r IH]; intros Hs; simpl; [repeat constructor|].
  inversion Hs as [|? ? Hr Hhd]; subst.
  destruct (key_compare (definitionId d) (definitionId x)) eqn:E.
  - apply key_compare_eq in E. constructor; [exact Hr|].
    destruct r as [|z r]; constructor. inversion Hhd; subst.
    unfold by_key in *. rewrite E. assumption.
  - constructor; [exact Hs | constructor; exact E].
  - constructor; [apply IH, Hr|]. apply put_hd; [exact Hhd|].
    unfold by_key, key_lt. rewrite key_compare_antisym, E. reflexivity.
Qed.

Lemma saveDefinitions_sorted store defs :
  Sorted by_key store -> Sorted by_key (saveDefinitions store defs).
Proof.
  unfold saveDefinitions. revert store; induction defs as [|d defs IH]; intros store H;
    simpl; [exact H|]. apply IH, put_sorted, H.
Qed.

Lemma filter_sorted {A} (R : A -> A -> Prop) (f : A -> bool) l :
  StronglySorted R l -> StronglySorted R (filter f l).
Proof.
  induction l as [|x l IH]; intros H; simpl; [constructor|].
  inversion H as [|? ? Hl Hall]; subst.
  destruct (f x); [|apply IH, Hl].
  constructor; [apply IH, Hl|]. apply Forall_forall. intros y Hy.
  apply filter_In in Hy as [Hy _]. rewrite Forall_forall in Hall. apply Hall, Hy.
Qed.

Lemma insert_perm x l : Permutation (insert_by_sortNumber x l) (x :: l).
Proof.
  induction l as [|y l IH]; simpl; [reflexivity|].
  destruct (sortNumber x <=? sortNumber y); [reflexivity|].
  rewrite IH. apply perm_swap.
Qed.

Lemma sort_perm l : Permutation (sort_by_sortNumber l) l.
Proof.
  induction l as [|x l IH]; simpl; [reflexivity|].
  rewrite insert_perm, IH. reflexivity.
Qed.

Lemma insert_hd (y x : UserDefinition) l :
  HdRel display_lt y l -> display_lt y x -> HdRel display_lt y (insert_by_sortNumber x l).
Proof.
  intros Hhd Hyx. destruct l as [|z l]; simpl; [constructor; exact Hyx|].
  destruct (sortNumber x <=? sortNumber z); constructor;
    [exact Hyx | inversion Hhd; assumption].
Qed.

Lemma insert_sorted x l :
  Sorted display_lt l ->
  (forall y, In y l -> by_key x y) ->
  Sorted display_lt (insert_by_sortNumber x l).
Proof.
  induction l as [|y l IH]; intros Hs Hk; simpl; [repeat constructor|].
  inversion Hs as [|? ? Hl Hhd]; subst.
  destruct (sortNumber x <=? sortNumber y) eqn:E.
  - constructor; [exact Hs|]. constructor. apply Z.leb_le in E.
    destruct (Z.eq_dec (sortNumber x) (sortNumber y)) as [Heq|Hne].
    + right. split; [exact Heq|]. apply Hk; left; reflexivity.
    + left. lia.
  - constructor.
    + apply IH; [exact Hl|]. intros z Hz; apply Hk; right; exact Hz.
    + apply insert_hd; [exact Hhd|]. left. apply Z.leb_gt in E. exact E.
Qed.

Lemma sort_sorted l :
  StronglySorted by_key l -> Sorted display_lt (sort_by_sortNumber l).
Proof.
  induction l as [|x l IH]; intros H; simpl; [constructor|].
  inversion H as [|? ? Hl Hall]; subst.
  apply insert_sorted; [apply IH, Hl|].
  intros y Hy. apply (Permutation_in _ (sort_perm l)) in Hy.
  rewrite Forall_forall in Hall. apply Hall, Hy.
Qed.

End IDBFacts.

(** C9 (as amended): for the store filled by [saveParsedData],
    [getDefinitionsByCategory(c)] returns a permutation of exactly the
    stored definitions of category [c], in ascending [sortNumber] order,
    definitions with equal [sortNumber] in ascending [definitionId] order
    (the order in which IndexedDB's [categoryId] index returns them). *)
Theorem getDefinitionsByCategory_spec (defs : list UserDefinition) (c : jsstr) :
  let store := IDB.saveDefinitions [] defs in
  Permutation (IDB.getDefinitionsByCategory store c)
              (filter (fun d => str_eqb (categoryId d) c) store) /\
  (forall d, In d (IDB.getDefinitionsByCategory store c) <->
             In d store /\ categoryId d = c) /\
  Sorted IDB.display_lt (IDB.getDefinitionsByCategory store c).
Proof.
  intros store.
  assert (Hp : Permutation (IDB.getDefinitionsByCategory store c)
                           (filter (fun d => str_eqb (categoryId d) c) store))
    by apply IDBFacts.sort_perm.
  split; [exact Hp|]. split.
  - intros d. split.
    + intros H. apply (Permutation_in _ Hp), filter_In in H as [H1 H2].
      split; [exact H1 | apply str_eqb_eq, H2].
    + intros [H1 H2]. apply (Permutation_in _ (Permutation_sym Hp)), filter_In.
      split; [exact H1 | apply str_eqb_eq, H2].
  - apply IDBFacts.sort_sorted. apply IDBFacts.filter_sorted.
    apply Sorted_StronglySorted.
    + intros x y z. apply IDBFacts.key_lt_trans.
    + apply IDBFacts.saveDefinitions_sorted. constructor.
Qed.

(** C9 as stated fails: ties are not broken by insertion order. Saving
    [b] and then [a], both of [catA] with [sortNumber] 1, yields [a]
    before [b], not the stable sort of the documents in insertion order. *)
Lemma getDefinitionsByCategory_ties_by_id :
  IDB.getDefinitionsByCategory
    (IDB.saveDefinitions [] [Examples.d_b1; Examples.d_x2; Examples.d_a1]) (s2u "catA")
  = [Examples.d_a1; Examples.d_b1] /\
  IDB.sort_by_sortNumber
    (filter (fun d => str_eqb (categoryId d) (s2u "catA"))
       [Examples.d_b1; Examples.d_x2; Examples.d_a1])
  = [Examples.d_b1; Examples.d_a1].
Proof. split; vm_compute; reflexivity. Qed.

(** ** Editor helpers *)

(** The file extension and the editor language of a definition type
    always agree: [.sql] with [sql], [.js] with [javascript], [.txt] with
    [plaintext]. *)
Theorem extension_and_language_agree (t : jsstr) :
  (Editor.getFileExtension t = s2u ".sql" /\ Editor.getEditorLanguage t = s2u "sql") \/
  (Editor.getFileExtension t = s2u ".js" /\ Editor.getEditorLanguage t = s2u "javascript") \/
  (Editor.getFileExtension t = s2u ".txt" /\ Editor.getEditorLanguage t = s2u "plaintext").
Proof.
  unfold Editor.getFileExtension, Editor.getEditorLanguage.
  destruct (str_eqb (toLowerCase t) (s2u "sql")); [left; split; reflexivity|].
  destruct (str_eqb (toLowerCase t) (s2u "javascript") || str_eqb (toLowerCase t) (s2u "js"));
    [right; left; split; reflexivity | right; right; split; reflexivity].
Qed.

(** ** Object stores *)

Module StoreFacts.
Import IndexedDB.

Section Keyed.

Context {A : Type} (keyOf : A -> jsstr).

Definition key_before (x y : A) : Prop := IDB.key_lt (keyOf x) (keyOf y).

Lemma find_put_by (s : list A) x k :
  find (fun y => str_eqb (keyOf y) k) (put_by keyOf s x) =
  if str_eqb (keyOf x) k then Some x else find (fun y => str_eqb (keyOf y) k) s.
Proof.
  induction s as [|y r IH]; simpl; [destruct (str_eqb (keyOf x) k); reflexivity|].
  destruct (IDB.key_compare (keyOf x) (keyOf y)) eqn:E; simpl.
  - apply IDBFacts.key_compare_eq in E. rewrite E.
    destruct (str_eqb (keyOf y) k); reflexivity.
  - reflexivity.
  - rewrite IH. destruct (str_eqb (keyOf y) k) eqn:Ey; [|reflexivity].
    destruct (str_eqb (keyOf x) k) eqn:Ex; [|reflexivity].
    apply str_eqb_eq in Ey, Ex. rewrite Ex, <- Ey, (proj2 (IDBFacts.key_compare_eq _ _) eq_refl) in E.
    discriminate.
Qed.

Lemma find_app_or {B} (f : B -> bool) (l1 l2 : list B) :
  find f (l1 ++ l2) = match find f l1 with Some x => Some x | None => find f l2 end.
Proof.
  induction l1 as [|x l1 IH]; simpl; [reflexivity|]. destruct (f x); [reflexivity|exact IH].
Qed.

Lemma find_fold_put_by (xs s : list A) k :
  find (fun y => str_eqb (keyOf y) k) (fold_left (put_by keyOf) xs s) =
  match find (fun y => str_eqb (keyOf y) k) (rev xs) with
  | Some x => Some x
  | None => find (fun y => str_eqb (keyOf y) k) s
  end.
Proof.
  revert s; induction xs as [|x xs IH]; intros s; simpl; [reflexivity|].
  rewrite IH, find_app_or, find_put_by. simpl.
  destruct (find _ (rev xs)); [reflexivity|].
  destruct (str_eqb (keyOf x) k); reflexivity.
Qed.

Lemma put_by_hd (x d : A) s :
  HdRel key_before x s -> key_before x d -> HdRel key_before x (put_by keyOf s d).
Proof.
  intros Hhd Hxd. destruct s as [|y r]; simpl; [constructor; exact Hxd|].
  destruct (IDB.key_compare (keyOf d) (keyOf y)); constructor;
    [exact Hxd | exact Hxd | inversion Hhd; assumption].
Qed.

Lemma put_by_sorted s d : Sorted key_before s -> Sorted key_before (put_by keyOf s d).
Proof.
  induction s as [|x r IH]; intros Hs; simpl; [repeat constructor|].
  inversion Hs as [|? ? Hr Hhd]; subst.
  destruct (IDB.key_compare (keyOf d) (keyOf x)) eqn:E.
  - apply IDBFacts.key_compare_eq in E. constructor; [exact Hr|].
    destruct r as [|z r]; constructor. inversion Hhd; subst.
    unfold key_before in *. rewrite E. assumption.
  - constructor; [exact Hs | constructor; exact E].
  - constructor; [apply IH, Hr|]. apply put_by_hd; [exact Hhd|].
    unfold key_before, IDB.key_lt. rewrite IDBFacts.key_compare_antisym, E. reflexivity.
Qed.

Lemma fold_put_by_sorted xs s :
  Sorted key_before s -> Sorted key_before (fold_left (put_by keyOf) xs s).
Proof.
  revert s; induction xs as [|x xs IH]; intros s H; simpl; [exact H|].
  apply IH, put_by_sorted, H.
Qed.

Lemma key_before_strongly s : Sorted key_before s -> StronglySorted key_before s.
Proof.
  apply Sorted_StronglySorted. intros x y z. apply IDBFacts.key_lt_trans.
Qed.

Lemma key_lt_irrefl a : ~ IDB.key_lt a a.
Proof.
  unfold IDB.key_lt. rewrite (proj2 (IDBFacts.key_compare_eq a a) eq_refl). discriminate.
Qed.

Lemma key_lt_neq a b : IDB.key_lt a b -> a <> b.
Proof. intros H ->. exact (key_lt_irrefl _ H). Qed.

Lemma find_key_none (l : list A) k :
  Forall (fun z => IDB.key_lt k (keyOf z)) l ->
  find (fun y => str_eqb (keyOf y) k) l = None.
Proof.
  induction l as [|z l IH]; intros H; [reflexivity|]. inversion H as [|? ? Hz Hl]; subst.
  simpl. destruct (str_eqb (keyOf z) k) eqn:E; [|apply IH, Hl].
  apply str_eqb_eq in E. rewrite E in Hz. exfalso; exact (key_lt_irrefl _ Hz).
Qed.

Lemma find_head_least (x : A) l :
  StronglySorted key_before (x :: l) ->
  forall k, IDB.key_lt k (keyOf x) \/ k = keyOf x ->
  find (fun y => str_eqb (keyOf y) k) l = None.
Proof.
  intros Hs k Hk. inversion Hs as [|? ? _ Hall]; subst. apply find_key_none.
  rewrite Forall_forall in *. intros z Hz. specialize (Hall z Hz).
  destruct Hk as [Hk| ->]; [exact (IDBFacts.key_lt_trans _ _ _ Hk Hall) | exact Hall].
Qed.

(** A store in key order is determined by its lookups. *)
Lemma sorted_ext (s1 s2 : list A) :
  Sorted key_before s1 -> Sorted key_before s2 ->
  (forall k, find (fun y => str_eqb (keyOf y) k) s1 = find (fun y => str_eqb (keyOf y) k) s2) ->
  s1 = s2.
Proof.
  intros H1 H2. apply key_before_strongly in H1, H2. revert s2 H2.
  induction s1 as [|x r1 IH]; intros [|y r2] H2 Hf.
  - reflexivity.
  - specialize (Hf (keyOf y)). simpl in Hf. rewrite str_eqb_refl in Hf. discriminate.
  - specialize (Hf (keyOf x)). simpl in Hf. rewrite str_eqb_refl in Hf. discriminate.
  - destruct (IDB.key_compare (keyOf x) (keyOf y)) eqn:E.
    + apply IDBFacts.key_compare_eq in E.
      assert (Hxy : x = y).
      { specialize (Hf (keyOf x)). simpl in Hf. rewrite str_eqb_refl, E, str_eqb_refl in Hf.
        inversion Hf; reflexivity. }
      subst y. f_equal. inversion H1; inversion H2; subst. apply IH; [assumption|assumption|].
      intros k. destruct (str_eqb (keyOf x) k) eqn:Ek.
      * apply str_eqb_eq in Ek. subst k.
        rewrite (find_head_least x r1 H1 _ (or_intror eq_refl)).
        rewrite (find_head_least x r2 H2 _ (or_intror eq_refl)). reflexivity.
      * specialize (Hf k). simpl in Hf. rewrite Ek in Hf. exact Hf.
    + specialize (Hf (keyOf x)). simpl in Hf. rewrite str_eqb_refl in Hf.
      destruct (str_eqb (keyOf y) (keyOf x)) eqn:Eyx.
      { apply str_eqb_eq in Eyx. rewrite Eyx in E.
        rewrite (proj2 (IDBFacts.key_compare_eq _ _) eq_refl) in E. discriminate. }
      rewrite (find_head_least y r2 H2 _ (or_introl E)) in Hf. discriminate.
    + specialize (Hf (keyOf y)). simpl in Hf. rewrite str_eqb_refl in Hf.
      destruct (str_eqb (keyOf x) (keyOf y)) eqn:Exy.
      { apply str_eqb_eq in Exy. rewrite Exy in E.
        rewrite (proj2 (IDBFacts.key_compare_eq _ _) eq_refl) in E. discriminate. }
      assert (E' : IDB.key_lt (keyOf y) (keyOf x)).
      { unfold IDB.key_lt. rewrite IDBFacts.key_compare_antisym, E. reflexivity. }
      rewrite (find_head_least x r1 H1 _ (or_introl E')) in Hf. discriminate.
Qed.

Lemma sorted_NoDup (s : list A) : Sorted key_before s -> NoDup (map keyOf s).
Proof.
  intros H. apply key_before_strongly in H. induction H as [|x l Hl IH Hall]; simpl;
    constructor; [|exact IH].
  rewrite in_map_iff. intros [z [Hz Hin]]. rewrite Forall_forall in Hall.
  specialize (Hall z Hin). unfold key_before in Hall. rewrite Hz in Hall.
  exact (key_lt_irrefl _ Hall).
Qed.

Lemma in_keys_put_by (s : list A) x k :
  In k (map keyOf (put_by keyOf s x)) <-> keyOf x = k \/ In k (map keyOf s).
Proof.
  induction s as [|y r IH]; simpl; [tauto|].
  destruct (IDB.key_compare (keyOf x) (keyOf y)) eqn:E; simpl.
  - apply IDBFacts.key_compare_eq in E. rewrite E. tauto.
  - tauto.
  - rewrite IH. tauto.
Qed.

Lemma in_keys_fold_put_by (xs s : list A) k :
  In k (map keyOf (fold_left (put_by keyOf) xs s)) <->
  In k (map keyOf xs) \/ In k (map keyOf s).
Proof.
  revert s; induction xs as [|x xs IH]; intros s; simpl; [tauto|].
  rewrite IH, in_keys_put_by. tauto.
Qed.

Lemma length_put_by (s : list A) x :
  (length s <= length (put_by keyOf s x) /\ 1 <= length (put_by keyOf s x))%nat.
Proof.
  induction s as [|y r IH]; simpl; [lia|].
  destruct (IDB.key_compare (keyOf x) (keyOf y)); simpl; lia.
Qed.


End Keyed.

Lemma put_eq (s : IDB.Store) d : IDB.put s d = put_by definitionId s d.
Proof. induction s as [|x r IH]; simpl; [reflexivity|]. rewrite IH. reflexivity. Qed.

Lemma saveDefinitions_eq (s : IDB.Store) defs :
  IDB.saveDefinitions s defs = fold_left (put_by definitionId) defs s.
Proof.
  unfold IDB.saveDefinitions. revert s; induction defs as [|d defs IH]; intros s;
    simpl; [reflexivity|]. rewrite put_eq. apply IH.
Qed.

(** The three stores of a database are in key order. *)
Definition db_sorted (db : DB) : Prop :=
  Sorted (key_before definitionId) (definitions db) /\
  Sorted (key_before Types.categoryId) (categories db) /\
  Sorted (key_before key) (metadata db).

Lemma save_sorted now data db : db_sorted db -> db_sorted (saveParsedData now data db).
Proof.
  intros [H1 [H2 H3]]. unfold saveParsedData, db_sorted. cbn [definitions categories metadata].
  rewrite saveDefinitions_eq.
  split; [|split]; apply fold_put_by_sorted; assumption.
Qed.

Lemma run_sorted (cs : list op) : db_sorted (run emptyDB cs).
Proof.
  unfold run. assert (H : db_sorted emptyDB) by (repeat split; constructor).
  revert H. generalize emptyDB. induction cs as [|c cs IH]; intros db H; simpl; [exact H|].
  apply IH. destruct c; simpl; [repeat split; constructor | apply save_sorted, H].
Qed.

Lemma length_fold_put_by_empty {A} (keyOf : A -> jsstr) (xs : list A) :
  let s := fold_left (put_by keyOf) xs [] in
  (length s <= length xs)%nat /\ (length s = length xs <-> NoDup (map keyOf xs)).
Proof.
  intros s.
  assert (Hnd : NoDup (map keyOf s))
    by (apply sorted_NoDup, fold_put_by_sorted; constructor).
  assert (Hin : forall k, In k (map keyOf s) <-> In k (map keyOf xs))
    by (intros k; unfold s; rewrite in_keys_fold_put_by; simpl; tauto).
  assert (Hle : (length s <= length xs)%nat).
  { rewrite <- (length_map keyOf s), <- (length_map keyOf xs).
    apply NoDup_incl_length; [exact Hnd|]. intros k; apply Hin. }
  split; [exact Hle|]. split.
  - intros Heq. eapply NoDup_incl_NoDup; [exact Hnd| |].
    + rewrite !length_map. lia.
    + intros k; apply Hin.
  - intros Hxs. apply Nat.le_antisymm; [exact Hle|].
    rewrite <- (length_map keyOf s), <- (length_map keyOf xs).
    apply NoDup_incl_length; [exact Hxs|]. intros k; apply Hin.
Qed.

End StoreFacts.

(** After [saveParsedData], [getDefinition(k)] returns the last definition
    of the import whose id is [k], and otherwise what it returned before. *)
Theorem getDefinition_after_save (now : jsstr) (data : Types.ParsedUserDefinition)
    (db : IndexedDB.DB) (k : jsstr) :
  IndexedDB.getDefinition (IndexedDB.saveParsedData now data db) k =
  match find (fun d => str_eqb (definitionId d) k) (rev (Types.userDefinitions data)) with
  | Some d => Some d
  | None => IndexedDB.getDefinition db k
  end.
Proof.
  unfold IndexedDB.getDefinition, IndexedDB.saveParsedData. cbn [IndexedDB.definitions].
  rewrite StoreFacts.saveDefinitions_eq. apply StoreFacts.find_fold_put_by.
Qed.

(** [hasData()] after [saveParsedData] is true exactly when the import has
    a definition or the database already had one. *)
Theorem hasData_after_save (now : jsstr) (data : Types.ParsedUserDefinition)
    (db : IndexedDB.DB) :
  IndexedDB.hasData (IndexedDB.saveParsedData now data db) =
  match Types.userDefinitions data with [] => IndexedDB.hasData db | _ :: _ => true end.
Proof.
  unfold IndexedDB.hasData, IndexedDB.countDefinitions, IndexedDB.saveParsedData.
  cbn [IndexedDB.definitions]. rewrite StoreFacts.saveDefinitions_eq.
  generalize (IndexedDB.definitions db) as s.
  destruct (Types.userDefinitions data) as [|d defs]; intros s; [reflexivity|].
  simpl. apply Nat.ltb_lt.
  assert (H : forall xs s', (length s' <= length (fold_left (IndexedDB.put_by definitionId) xs s'))%nat).
  { induction xs as [|x xs IH]; intros s'; simpl; [lia|].
    pose proof (StoreFacts.length_put_by definitionId s' x). specialize (IH (IndexedDB.put_by definitionId s' x)).
    lia. }
  pose proof (H defs (IndexedDB.put_by definitionId s d)).
  pose proof (StoreFacts.length_put_by definitionId s d). lia.
Qed.

Lemma cursor_from_start_firstn (limit : Z) (recs results : list UserDefinition) :
  IndexedDB.cursor_from_start limit recs results =
  results ++ firstn (Z.to_nat limit - length results) recs.
Proof.
  revert results; induction recs as [|c rest IH]; intros results; simpl.
  - rewrite firstn_nil, app_nil_r. reflexivity.
  - destruct (Z.of_nat (length results) <? limit) eqn:E.
    + apply Z.ltb_lt in E. rewrite IH, length_app. simpl.
      destruct (Z.to_nat limit - length results)%nat as [|n] eqn:En; [lia|].
      simpl. rewrite <- app_assoc. simpl. do 3 f_equal. lia.
    + apply Z.ltb_ge in E.
      replace (Z.to_nat limit - length results)%nat with 0%nat by lia.
      rewrite app_nil_r. reflexivity.
Qed.

Lemma cursor_with_offset_done (offset limit : Z) (recs results : list UserDefinition)
    (skipped : Z) :
  offset <= skipped ->
  IndexedDB.cursor_with_offset offset limit recs skipped results =
  IndexedDB.cursor_from_start limit recs results.
Proof.
  intros Hs. revert results; induction recs as [|c rest IH]; intros results; simpl;
    [reflexivity|].
  replace (skipped <? offset) with false by (symmetry; apply Z.ltb_ge; lia).
  destruct (Z.of_nat (length results) <? limit); [apply IH | reflexivity].
Qed.

Lemma cursor_with_offset_skip (offset limit : Z) (recs results : list UserDefinition)
    (skipped : Z) :
  skipped <= offset ->
  IndexedDB.cursor_with_offset offset limit recs skipped results =
  IndexedDB.cursor_from_start limit (skipn (Z.to_nat (offset - skipped)) recs) results.
Proof.
  revert skipped results; induction recs as [|c rest IH]; intros skipped results Hs.
  - rewrite skipn_nil. reflexivity.
  - destruct (skipped <? offset) eqn:E.
    + simpl. rewrite E. apply Z.ltb_lt in E. rewrite IH by lia.
      replace (Z.to_nat (offset - skipped)) with (S (Z.to_nat (offset - (skipped + 1)))) by lia.
      reflexivity.
    + apply Z.ltb_ge in E. replace (Z.to_nat (offset - skipped)) with 0%nat by lia.
      apply cursor_with_offset_done. exact E.
Qed.

(** [getDefinitionsPaginated(offset, limit)] on integral arguments returns
    the [limit] definitions that follow the first [offset] ones in key
    order (nothing for [limit <= 0]; a negative offset skips nothing). *)
Theorem getDefinitionsPaginated_window (db : IndexedDB.DB) (offset limit : Z) :
  IndexedDB.getDefinitionsPaginated db (Some offset) (Some limit) =
  firstn (Z.to_nat limit) (skipn (Z.to_nat offset) (IndexedDB.getAllDefinitions db)).
Proof.
  unfold IndexedDB.getDefinitionsPaginated, IndexedDB.getAllDefinitions.
  destruct (0 <? offset) eqn:E.
  - apply Z.ltb_lt in E. rewrite cursor_with_offset_skip by lia.
    rewrite cursor_from_start_firstn. simpl. rewrite Z.sub_0_r, Nat.sub_0_r. reflexivity.
  - apply Z.ltb_ge in E. rewrite cursor_from_start_firstn. simpl.
    replace (Z.to_nat offset) with 0%nat by lia. rewrite Nat.sub_0_r. reflexivity.
Qed.

(** ** Hydration maps *)

Module MapFacts.

Lemma in_keys_map_set {V} (m : list (jsstr * V)) k v k' :
  In k' (map fst (map_set m k v)) <-> k = k' \/ In k' (map fst m).
Proof.
  induction m as [|[k0 v0] m IH]; simpl; [tauto|].
  destruct (str_eqb k0 k) eqn:E; simpl.
  - apply str_eqb_eq in E; subst. tauto.
  - rewrite IH. tauto.
Qed.

Lemma nodup_map_set {V} (m : list (jsstr * V)) k v :
  NoDup (map fst m) -> NoDup (map fst (map_set m k v)).
Proof.
  induction m as [|[k0 v0] m IH]; simpl; intros H; [repeat constructor; intros []|].
  inversion H as [|? ? Hn Hm]; subst.
  destruct (str_eqb k0 k) eqn:E; simpl.
  - apply str_eqb_eq in E; subst. constructor; assumption.
  - constructor; [|apply IH, Hm]. rewrite in_keys_map_set. intros [->|Hin];
      [rewrite str_eqb_refl in E; discriminate | exact (Hn Hin)].
Qed.

Definition fill (docs : list UserDefinition) (m0 : list (jsstr * UserDefinition)) :=
  fold_left (fun m d => map_set m (definitionId d) d) docs m0.

Lemma in_keys_fill docs m0 k :
  In k (map fst (fill docs m0)) <-> In k (map definitionId docs) \/ In k (map fst m0).
Proof.
  unfold fill. revert m0; induction docs as [|d docs IH]; intros m0; simpl; [tauto|].
  rewrite IH, in_keys_map_set. tauto.
Qed.

Lemma nodup_fill docs m0 : NoDup (map fst m0) -> NoDup (map fst (fill docs m0)).
Proof.
  unfold fill. revert m0; induction docs as [|d docs IH]; intros m0 H; simpl; [exact H|].
  apply IH, nodup_map_set, H.
Qed.

Lemma map_get_fill docs m0 k :
  map_get (fill docs m0) k =
  match find (fun d => str_eqb (definitionId d) k) (rev docs) with
  | Some d => Some d
  | None => map_get m0 k
  end.
Proof.
  unfold fill. revert m0; induction docs as [|d docs IH]; intros m0; simpl; [reflexivity|].
  rewrite IH, StoreFacts.find_app_or, map_get_set. simpl.
  destruct (find _ (rev docs)); [reflexivity|].
  destruct (str_eqb (definitionId d) k); reflexivity.
Qed.

Lemma length_fill docs :
  (length (fill docs []) <= length docs)%nat /\
  (length (fill docs []) = length docs <-> NoDup (map definitionId docs)).
Proof.
  assert (Hnd : NoDup (map fst (fill docs []))) by (apply nodup_fill; constructor).
  assert (Hin : forall k, In k (map fst (fill docs [])) <-> In k (map definitionId docs))
    by (intros k; rewrite in_keys_fill; simpl; tauto).
  assert (Hle : (length (fill docs []) <= length docs)%nat).
  { rewrite <- (length_map fst (fill docs [])), <- (length_map definitionId docs).
    apply NoDup_incl_length; [exact Hnd|]. intros k; apply Hin. }
  split; [exact Hle|]. split.
  - intros Heq. eapply NoDup_incl_NoDup; [exact Hnd| |].
    + rewrite !length_map. lia.
    + intros k; apply Hin.
  - intros Hxs. apply Nat.le_antisymm; [exact Hle|].
    rewrite <- (length_map fst (fill docs [])), <- (length_map definitionId docs).
    apply NoDup_incl_length; [exact Hxs|]. intros k; apply Hin.
Qed.

Lemma find_nodup (l : list UserDefinition) d :
  NoDup (map definitionId l) -> In d l ->
  find (fun x => str_eqb (definitionId x) (definitionId d)) l = Some d.
Proof.
  induction l as [|x l IH]; intros Hnd Hin; [destruct Hin|].
  inversion Hnd as [|? ? Hx Hl]; subst. simpl.
  destruct Hin as [->|Hin]; [rewrite str_eqb_refl; reflexivity|].
  destruct (str_eqb (definitionId x) (definitionId d)) eqn:E; [|apply IH; assumption].
  apply str_eqb_eq in E. exfalso. apply Hx. rewrite E. apply in_map, Hin.
Qed.

Lemma buildIndex_map (docs : list UserDefinition) (st : Service) :
  definitionsMap (buildIndex docs st) = fill docs [] /\ isIndexed (buildIndex docs st) = true.
Proof.
  unfold buildIndex, initIndex. destruct (index st); simpl; rewrite build_fold; split; reflexivity.
Qed.

End MapFacts.

(** After [buildIndex(docs)], [getStats()] reports an indexed service
    with at most [docs.length] definitions, exactly [docs.length] when the
    ids are distinct and fewer otherwise. *)
Theorem getStats_after_build (docs : list UserDefinition) (st : Service) :
  fst (SearchApi.getStats (buildIndex docs st)) = true /\
  (snd (SearchApi.getStats (buildIndex docs st)) <= length docs)%nat /\
  (snd (SearchApi.getStats (buildIndex docs st)) = length docs <->
   NoDup (map definitionId docs)).
Proof.
  destruct (MapFacts.buildIndex_map docs st) as [Hm Hi]. unfold SearchApi.getStats; simpl.
  rewrite Hm, Hi. destruct (MapFacts.length_fill docs) as [H1 H2]. auto.
Qed.

(** Saving the same parsed data twice leaves the database as one save
    does: re-importing a file changes nothing but the [lastUpdated]
    timestamp. *)
Theorem saveParsedData_idempotent (now now' : jsstr) (data : Types.ParsedUserDefinition)
    (cs : list IndexedDB.op) :
  let db := IndexedDB.run IndexedDB.emptyDB cs in
  IndexedDB.saveParsedData now data (IndexedDB.saveParsedData now' data db) =
  IndexedDB.saveParsedData now data db.
Proof.
  intros db. destruct (StoreFacts.run_sorted cs) as [H1 [H2 H3]]. fold db in H1, H2, H3.
  unfold IndexedDB.saveParsedData. cbn [IndexedDB.definitions IndexedDB.categories IndexedDB.metadata].
  rewrite !StoreFacts.saveDefinitions_eq. f_equal.
  - apply (StoreFacts.sorted_ext definitionId);
      [apply StoreFacts.fold_put_by_sorted, StoreFacts.fold_put_by_sorted, H1
      | apply StoreFacts.fold_put_by_sorted, H1 |].
    intros k. rewrite !StoreFacts.find_fold_put_by. destruct (find _ _); reflexivity.
  - apply (StoreFacts.sorted_ext Types.categoryId);
      [apply StoreFacts.fold_put_by_sorted, StoreFacts.fold_put_by_sorted, H2
      | apply StoreFacts.fold_put_by_sorted, H2 |].
    intros k. rewrite !StoreFacts.find_fold_put_by. destruct (find _ _); reflexivity.
  - apply (StoreFacts.sorted_ext IndexedDB.key);
      [apply StoreFacts.fold_put_by_sorted, StoreFacts.fold_put_by_sorted, H3
      | apply StoreFacts.fold_put_by_sorted, H3 |].
    intros k. rewrite !StoreFacts.find_fold_put_by. cbn [rev app find IndexedDB.key].
    repeat match goal with |- context [str_eqb ?a k] => destruct (str_eqb a k) end;
      reflexivity.
Qed.

(** Uploading a parsed file (clear, [saveParsedData], [loadDataFromDB])
    yields stats whose [definitionCount] is the number of distinct
    definition ids of the file: at most the [definitionCount] written to
    the metadata store ([userDefinitions.length]), equal to it exactly when
    the ids are distinct; likewise for [categoryCount] and the category
    ids. *)
Theorem upload_counts (now : jsstr) (parsed : Types.ParsedUserDefinition)
    (db : IndexedDB.DB) (st : Service) :
  let '(db', (_, _, stats)) := App.uploadParsed now parsed db st in
  IndexedDB.getMetadata db' (s2u "definitionCount") =
    Some (IndexedDB.MetaNumber (Z.of_nat (length (Types.userDefinitions parsed)))) /\
  IndexedDB.getMetadata db' (s2u "categoryCount") =
    Some (IndexedDB.MetaNumber (Z.of_nat (length (Types.userCategories parsed)))) /\
  (App.definitionCount stats <= length (Types.userDefinitions parsed))%nat /\
  (App.definitionCount stats = length (Types.userDefinitions parsed) <->
   NoDup (map definitionId (Types.userDefinitions parsed))) /\
  (App.categoryCount stats <= length (Types.userCategories parsed))%nat /\
  (App.categoryCount stats = length (Types.userCategories parsed) <->
   NoDup (map Types.categoryId (Types.userCategories parsed))).
Proof.
  unfold App.uploadParsed, App.loadDataFromDB. cbn [App.definitionCount App.categoryCount].
  unfold IndexedDB.getMetadata, IndexedDB.countDefinitions, IndexedDB.getCategories.
  unfold IndexedDB.saveParsedData. cbn [IndexedDB.definitions IndexedDB.categories
    IndexedDB.metadata IndexedDB.clear].
  rewrite StoreFacts.saveDefinitions_eq, !StoreFacts.find_fold_put_by.
  destruct (StoreFacts.length_fold_put_by_empty definitionId (Types.userDefinitions parsed))
    as [Hd1 Hd2].
  destruct (StoreFacts.length_fold_put_by_empty Types.categoryId (Types.userCategories parsed))
    as [Hc1 Hc2].
  split; [reflexivity|]. split; [reflexivity|]. auto.
Qed.

(** [loadDataFromDB] on any database the service can produce builds a
    search index whose [getStats()] count equals the [definitionCount] of
    the stats, and whose hydration map holds every stored definition under
    its id. *)
Theorem loadDataFromDB_consistent (cs : list IndexedDB.op) (st : Service) :
  let db := IndexedDB.run IndexedDB.emptyDB cs in
  let '(_, st', stats) := App.loadDataFromDB db st in
  SearchApi.getStats st' = (true, App.definitionCount stats) /\
  (forall d, In d (IndexedDB.getAllDefinitions db) ->
     map_get (definitionsMap st') (definitionId d) = Some d).
Proof.
  intros db. destruct (StoreFacts.run_sorted cs) as [H1 _]. fold db in H1.
  apply StoreFacts.sorted_NoDup in H1.
  unfold App.loadDataFromDB, IndexedDB.getAllDefinitions, IndexedDB.countDefinitions.
  destruct (MapFacts.buildIndex_map (IndexedDB.definitions db) st) as [Hm Hi].
  unfold SearchApi.getStats. rewrite Hm, Hi. cbn [App.definitionCount]. split.
  - f_equal. apply (proj2 (MapFacts.length_fill _)), H1.
  - intros d Hd. rewrite MapFacts.map_get_fill.
    rewrite MapFacts.find_nodup; [reflexivity| |].
    + rewrite map_rev. apply NoDup_rev, H1.
    + apply in_rev in Hd. exact Hd.
Qed.

(** ** File trees *)

Module TreeFacts.
Import Tree.

(** Induction on trees, through the [children] lists. *)
Definition node_ind (P : FileTreeNode -> Prop)
    (H : forall i n t cs d c e,
         match cs with Some l => Forall P l | None => True end ->
         P (mkFileTreeNode i n t cs d c e)) :
  forall node, P node :=
  fix F (node : FileTreeNode) : P node :=
    match node with
    | mkFileTreeNode i n t cs d c e =>
        H i n t cs d c e
          (match cs as o return (match o with Some l => Forall P l | None => True end) with
           | Some l =>
               (fix G (l : list FileTreeNode) : Forall P l :=
                  match l with
                  | [] => Forall_nil P
                  | x :: r => Forall_cons x (F x) (G r)
                  end) l
           | None => I
           end)
    end.

Lemma in_non_null (l : list (option FileTreeNode)) x :
  In x (non_null l) <-> In (Some x) l.
Proof.
  induction l as [|[y|] l IH]; simpl; [tauto| |].
  - rewrite IH. split; intros [H|H]; (left; congruence) || (right; exact H).
  - rewrite IH. split; [intros H; right; exact H | intros [H|H]; [discriminate|exact H]].
Qed.

Lemma non_null_map_fixed (f : FileTreeNode -> option FileTreeNode) l :
  (forall x, In x l -> f x = Some x) -> non_null (map f l) = l.
Proof.
  induction l as [|x l IH]; intros H; simpl; [reflexivity|].
  rewrite (H x (or_introl eq_refl)). simpl. f_equal. apply IH. intros y Hy; apply H; right; exact Hy.
Qed.

Lemma filterNode_folder (s : jsstr) i n l d c e :
  filterNode s (mkFileTreeNode i n folder (Some l) d c e) =
  match non_null (map (filterNode s) l) with
  | _ :: _ => Some (with_children (mkFileTreeNode i n folder (Some l) d c e) (non_null (map (filterNode s) l)))
  | [] => if includes (toLowerCase n) s then Some (mkFileTreeNode i n folder (Some l) d c e) else None
  end.
Proof. reflexivity. Qed.

Lemma filterNode_fixed (s : jsstr) (node : FileTreeNode) :
  forall node', filterNode s node = Some node' -> filterNode s node' = Some node'.
Proof.
  induction node as [i n t cs d c e IH] using node_ind. intros node' H.
  destruct t.
  - destruct cs as [l|].
    + simpl in H.
      destruct (non_null (map (filterNode s) l)) as [|y ys] eqn:Hfc.
      * destruct (includes (toLowerCase n) s) eqn:Hm; inversion H; subst node'.
        simpl. rewrite Hfc, Hm. reflexivity.
      * inversion H; subst node'. cbn [with_children]. rewrite filterNode_folder.
        rewrite (non_null_map_fixed (filterNode s) (y :: ys)); [rewrite <- Hfc; reflexivity|].
        intros x Hx. rewrite <- Hfc in Hx. apply in_non_null, in_map_iff in Hx as [x0 [Hx0 Hin]].
        rewrite Forall_forall in IH. exact (IH x0 Hin x Hx0).
    + simpl in H. destruct (includes (toLowerCase n) s) eqn:Hm; inversion H; subst node'.
      simpl. rewrite Hm. reflexivity.
  - simpl in H. destruct (includes (toLowerCase n) s) eqn:Hm; inversion H; subst node'.
    simpl. rewrite Hm. reflexivity.
Qed.

Lemma in_all_nodes_child (x child : FileTreeNode) l i n t d c e :
  In child l -> In x (all_nodes child) ->
  In x (all_nodes (mkFileTreeNode i n t (Some l) d c e)).
Proof.
  intros Hc Hx. simpl. right. apply in_flat_map. exists child. split; assumption.
Qed.

Lemma filterNode_complete (s : jsstr) (node : FileTreeNode) :
  files_are_leaves [node] = true ->
  forall x, In x (all_nodes node) -> type x = file ->
  includes (toLowerCase (name x)) s = true ->
  exists node', filterNode s node = Some node' /\ In x (all_nodes node').
Proof.
  induction node as [i n t cs d c e IH] using node_ind.
  intros Hleaf x Hx Htx Hmx.
  unfold files_are_leaves in Hleaf. simpl in Hleaf. rewrite app_nil_r in Hleaf.
  simpl in Hx. destruct Hx as [<-|Hx].
  - simpl in Htx. subst t. simpl in Hmx. simpl. rewrite Hmx.
    exists (mkFileTreeNode i n file cs d c e). split; [reflexivity | left; reflexivity].
  - destruct cs as [l|]; [|destruct Hx].
    apply andb_true_iff in Hleaf as [Ht Hleaf].
    destruct t; [|discriminate]. clear Ht.
    apply in_flat_map in Hx as [child [Hchild Hx]].
    rewrite Forall_forall in IH.
    assert (Hlc : files_are_leaves [child] = true).
    { unfold files_are_leaves. simpl. rewrite app_nil_r. rewrite forallb_forall in *.
      intros y Hy. apply Hleaf, in_flat_map. exists child. split; assumption. }
    destruct (IH child Hchild Hlc x Hx Htx Hmx) as [child' [Hf Hx']].
    assert (Hin : In child' (non_null (map (filterNode s) l))).
    { apply in_non_null, in_map_iff. exists child. split; assumption. }
    rewrite filterNode_folder.
    destruct (non_null (map (filterNode s) l)) as [|y ys] eqn:Hfc; [destruct Hin|].
    eexists. split; [reflexivity|].
    cbn [with_children all_nodes children]. right. apply in_flat_map. exists child'. split; [exact Hin | exact Hx'].
Qed.

Lemma filterNode_sound (s : jsstr) (node : FileTreeNode) :
  forall node', filterNode s node = Some node' -> matches_below s node' = true.
Proof.
  induction node as [i n t cs d c e IH] using node_ind. intros node' H.
  destruct t.
  - destruct cs as [l|].
    + simpl in H. destruct (non_null (map (filterNode s) l)) as [|y ys] eqn:Hfc.
      * destruct (includes (toLowerCase n) s) eqn:Hm; inversion H; subst.
        simpl. rewrite Hm. reflexivity.
      * inversion H; subst node'. simpl. apply orb_true_iff. right.
        apply orb_true_iff. left.
        assert (Hy : In y (non_null (map (filterNode s) l))) by (rewrite Hfc; left; reflexivity).
        apply in_non_null, in_map_iff in Hy as [y0 [Hy0 Hin]].
        rewrite Forall_forall in IH. exact (IH y0 Hin y Hy0).
    + simpl in H. destruct (includes (toLowerCase n) s) eqn:Hm; inversion H; subst.
      simpl. rewrite Hm. reflexivity.
  - simpl in H. destruct (includes (toLowerCase n) s) eqn:Hm; inversion H; subst.
    simpl. rewrite Hm. reflexivity.
Qed.

End TreeFacts.

Module BuildTreeFacts.
Import Tree.

Definition in_category (k : jsstr) (defs : list UserDefinition) : list UserDefinition :=
  filter (fun d => str_eqb (categoryId d) k) defs.

Definition opt_nonempty {A} (l : list A) : option (list A) :=
  match l with [] => None | _ => Some l end.

Lemma group_step_get m d k :
  map_get (group_step m d) k =
  if str_eqb (categoryId d) k
  then Some (match map_get m (categoryId d) with Some a => a | None => [] end ++ [d])
  else map_get m k.
Proof.
  unfold group_step. destruct (map_get m (categoryId d)) as [a|] eqn:E.
  - rewrite E, map_get_set. reflexivity.
  - rewrite map_get_set, str_eqb_refl. cbv beta iota. rewrite !map_get_set.
    destruct (str_eqb (categoryId d) k); reflexivity.
Qed.

Lemma group_inv defs : forall m pre,
  (forall k, map_get m k = opt_nonempty (in_category k pre)) ->
  forall k, map_get (fold_left group_step defs m) k = opt_nonempty (in_category k (pre ++ defs)).
Proof.
  induction defs as [|d defs IH]; intros m pre H k; simpl.
  - rewrite app_nil_r. apply H.
  - replace (pre ++ d :: defs) with ((pre ++ [d]) ++ defs) by (rewrite <- app_assoc; reflexivity).
    apply IH. intros k'. rewrite group_step_get. unfold in_category. rewrite filter_app. simpl.
    destruct (str_eqb (categoryId d) k') eqn:E.
    + apply str_eqb_eq in E. subst k'. rewrite H. unfold in_category.
      destruct (filter (fun d0 => str_eqb (categoryId d0) (categoryId d)) pre); reflexivity.
    + rewrite app_nil_r. apply H.
Qed.

Definition le_sn (x y : UserDefinition) : Prop := sortNumber x <= sortNumber y.

Lemma insert_sorted_le x l :
  Sorted le_sn l -> Sorted le_sn (IDB.insert_by_sortNumber x l).
Proof.
  induction l as [|y r IH]; intros Hs; simpl; [repeat constructor|].
  inversion Hs as [|? ? Hr Hhd]; subst.
  destruct (sortNumber x <=? sortNumber y) eqn:E.
  - constructor; [exact Hs|]. constructor. apply Z.leb_le, E.
  - apply Z.leb_gt in E. constructor; [apply IH, Hr|].
    destruct r as [|z r]; simpl; [constructor; unfold le_sn; lia|].
    destruct (sortNumber x <=? sortNumber z); constructor;
      [unfold le_sn; lia | inversion Hhd; assumption].
Qed.

Lemma sort_sorted_le l : Sorted le_sn (IDB.sort_by_sortNumber l).
Proof.
  induction l as [|x l IH]; simpl; [constructor|]. apply insert_sorted_le, IH.
Qed.

Lemma sort_id l : Sorted le_sn l -> IDB.sort_by_sortNumber l = l.
Proof.
  induction l as [|x l IH]; intros Hs; simpl; [reflexivity|].
  inversion Hs as [|? ? Hl Hhd]; subst. rewrite (IH Hl).
  destruct l as [|y r]; simpl; [reflexivity|].
  inversion Hhd as [|? ? Hxy]; subst. unfold le_sn in Hxy.
  rewrite (proj2 (Z.leb_le _ _) Hxy). reflexivity.
Qed.

Lemma sort_idem l : IDB.sort_by_sortNumber (IDB.sort_by_sortNumber l) = IDB.sort_by_sortNumber l.
Proof. apply sort_id, sort_sorted_le. Qed.

Definition folder_of (defs : list UserDefinition) (c : Types.UserCategory) : FileTreeNode :=
  folderNode c (map fileNode (IDB.sort_by_sortNumber (in_category (Types.categoryId c) defs))).

Lemma folder_loop defs cats : forall m tree,
  (forall k, match map_get m k with
             | None => in_category k defs = []
             | Some a => IDB.sort_by_sortNumber a = IDB.sort_by_sortNumber (in_category k defs)
             end) ->
  snd (fold_left folder_step cats (m, tree)) = tree ++ map (folder_of defs) cats.
Proof.
  induction cats as [|c cats IH]; intros m tree H; simpl.
  - rewrite app_nil_r. reflexivity.
  - pose proof (H (Types.categoryId c)) as Hc.
    destruct (map_get m (Types.categoryId c)) as [a|] eqn:E.
    + replace (folder_step (m, tree) c) with
        (map_set m (Types.categoryId c) (IDB.sort_by_sortNumber a),
         tree ++ [folderNode c (map fileNode (IDB.sort_by_sortNumber a))])
        by (unfold folder_step; rewrite E; reflexivity).
      rewrite IH.
      * rewrite <- app_assoc. unfold folder_of. rewrite <- Hc. reflexivity.
      * intros k. rewrite map_get_set. destruct (str_eqb (Types.categoryId c) k) eqn:Ek.
        -- apply str_eqb_eq in Ek. subst k. rewrite sort_idem. exact Hc.
        -- apply H.
    + replace (folder_step (m, tree) c) with
        (m, tree ++ [folderNode c (map fileNode (IDB.sort_by_sortNumber []))])
        by (unfold folder_step; rewrite E; reflexivity).
      rewrite IH by exact H.
      rewrite <- app_assoc. unfold folder_of. rewrite Hc. reflexivity.
Qed.

Lemma buildFileTree_eq (parsed : Types.ParsedUserDefinition) :
  buildFileTree parsed = map (folder_of (Types.userDefinitions parsed)) (Types.userCategories parsed).
Proof.
  unfold buildFileTree.
  change (map _ (Types.userCategories parsed)) with
    ([] ++ map (folder_of (Types.userDefinitions parsed)) (Types.userCategories parsed)).
  apply folder_loop. intros k.
  rewrite (group_inv (Types.userDefinitions parsed) [] [] (fun _ => eq_refl) k).
  simpl. unfold opt_nonempty.
  destruct (in_category k (Types.userDefinitions parsed)); reflexivity.
Qed.

End BuildTreeFacts.

(** [buildFileTree] gives one folder per category of [userCategories], in
    that order; the files of a folder are the definitions whose
    [categoryId] is the folder's, sorted by [sortNumber] (stably, so in
    input order among equal sort numbers). Definitions whose category is not
    listed appear nowhere. *)
Theorem buildFileTree_spec (parsed : Types.ParsedUserDefinition) :
  Tree.buildFileTree parsed =
  map (fun c => Tree.folderNode c
         (map Tree.fileNode
            (IDB.sort_by_sortNumber
               (filter (fun d => str_eqb (categoryId d) (Types.categoryId c))
                  (Types.userDefinitions parsed)))))
      (Types.userCategories parsed).
Proof. apply BuildTreeFacts.buildFileTree_eq. Qed.


Module TreeSearchFacts.
Import Tree.

Lemma searchInTree_fixed tree term :
  searchInTree (searchInTree tree term) term = searchInTree tree term.
Proof.
  unfold searchInTree. apply TreeFacts.non_null_map_fixed.
  intros x Hx. apply TreeFacts.in_non_null, in_map_iff in Hx as [x0 [Hx0 _]].
  exact (TreeFacts.filterNode_fixed _ x0 x Hx0).
Qed.

Lemma searchInTree_finds tree term x :
  files_are_leaves tree = true -> In x (flat_map all_nodes tree) -> type x = file ->
  includes (toLowerCase (name x)) (toLowerCase term) = true ->
  In x (flat_map all_nodes (searchInTree tree term)).
Proof.
  intros Hleaf Hx Ht Hm. apply in_flat_map in Hx as [n [Hn Hx]].
  assert (Hl : files_are_leaves [n] = true).
  { unfold files_are_leaves in *. simpl. rewrite app_nil_r.
    rewrite forallb_forall in *. intros y Hy. apply Hleaf, in_flat_map.
    exists n. split; assumption. }
  destruct (TreeFacts.filterNode_complete _ n Hl x Hx Ht Hm) as [n' [Hf Hx']].
  apply in_flat_map. exists n'. split; [|exact Hx'].
  unfold searchInTree. apply TreeFacts.in_non_null, in_map_iff. exists n. split; assumption.
Qed.

Lemma buildFileTree_leaves parsed : files_are_leaves (buildFileTree parsed) = true.
Proof.
  rewrite BuildTreeFacts.buildFileTree_eq. unfold files_are_leaves.
  apply forallb_forall. intros y Hy.
  apply in_flat_map in Hy as [f [Hf Hy]]. apply in_map_iff in Hf as [c [<- _]].
  unfold BuildTreeFacts.folder_of, folderNode in Hy. simpl in Hy.
  destruct Hy as [<-|Hy]; [reflexivity|].
  apply in_flat_map in Hy as [g [Hg Hy]]. apply in_map_iff in Hg as [d [<- _]].
  unfold fileNode in Hy. simpl in Hy. destruct Hy as [<-|[]]. reflexivity.
Qed.

Lemma fileNode_in_buildFileTree parsed d :
  In d (Types.userDefinitions parsed) ->
  In (categoryId d) (map Types.categoryId (Types.userCategories parsed)) ->
  In (fileNode d) (flat_map all_nodes (buildFileTree parsed)).
Proof.
  intros Hd Hc. apply in_map_iff in Hc as [c [Hcd Hc]].
  rewrite BuildTreeFacts.buildFileTree_eq. apply in_flat_map.
  exists (BuildTreeFacts.folder_of (Types.userDefinitions parsed) c).
  split; [apply in_map, Hc|].
  unfold BuildTreeFacts.folder_of, folderNode. simpl. right.
  apply in_flat_map. exists (fileNode d). split; [|left; reflexivity].
  apply in_map. apply (Permutation_in _ (Permutation_sym (IDBFacts.sort_perm _))).
  apply filter_In. split; [exact Hd|]. rewrite Hcd. apply str_eqb_refl.
Qed.

End TreeSearchFacts.

(** [searchInTree] is idempotent: searching the filtered tree again with
    the same term gives the same tree back. *)
Theorem searchInTree_idempotent (tree : list Tree.FileTreeNode) (term : jsstr) :
  Tree.searchInTree (Tree.searchInTree tree term) term = Tree.searchInTree tree term.
Proof. apply TreeSearchFacts.searchInTree_fixed. Qed.

(** Every node [searchInTree] keeps at the top level matches: its
    lower-cased name, or that of a node below it, contains the lower-cased
    search term. *)
Theorem searchInTree_sound (tree : list Tree.FileTreeNode) (term : jsstr)
    (r : Tree.FileTreeNode) :
  In r (Tree.searchInTree tree term) -> Tree.matches_below (toLowerCase term) r = true.
Proof.
  unfold Tree.searchInTree. intros H.
  apply TreeFacts.in_non_null, in_map_iff in H as [r0 [Hr0 _]].
  exact (TreeFacts.filterNode_sound _ r0 r Hr0).
Qed.

Lemma searchInTree_sound_witness :
  In (hd (Tree.fileNode Examples.d_a)
        (Tree.searchInTree (Tree.buildFileTree Examples.parsed_A) (s2u "FOO")))
     (Tree.searchInTree (Tree.buildFileTree Examples.parsed_A) (s2u "FOO")) /\
  Tree.matches_below (toLowerCase (s2u "FOO"))
    (hd (Tree.fileNode Examples.d_a)
        (Tree.searchInTree (Tree.buildFileTree Examples.parsed_A) (s2u "FOO"))) = true.
Proof.
  assert (H : In (hd (Tree.fileNode Examples.d_a)
        (Tree.searchInTree (Tree.buildFileTree Examples.parsed_A) (s2u "FOO")))
     (Tree.searchInTree (Tree.buildFileTree Examples.parsed_A) (s2u "FOO")))
    by (vm_compute; left; reflexivity).
  split; [exact H | apply (searchInTree_sound _ _ _ H)].
Defined.

(** In a tree whose file nodes have no children, [searchInTree] keeps
    every file node, at any depth, whose lower-cased name contains the
    lower-cased search term. *)
Theorem searchInTree_complete (tree : list Tree.FileTreeNode) (term : jsstr)
    (x : Tree.FileTreeNode) :
  Tree.files_are_leaves tree = true ->
  In x (flat_map Tree.all_nodes tree) -> Tree.type x = Tree.file ->
  includes (toLowerCase (Tree.name x)) (toLowerCase term) = true ->
  In x (flat_map Tree.all_nodes (Tree.searchInTree tree term)).
Proof. apply TreeSearchFacts.searchInTree_finds. Qed.

Lemma searchInTree_complete_witness :
  In (Tree.fileNode Examples.d_b)
     (flat_map Tree.all_nodes
        (Tree.searchInTree (Tree.buildFileTree Examples.parsed_A) (s2u "FOO"))).
Proof.
  apply searchInTree_complete; [vm_compute; reflexivity | | vm_compute; reflexivity
                               | vm_compute; reflexivity].
  vm_compute. right. right. right. left. reflexivity.
Defined.

(** Searching the tree built by [buildFileTree] finds the file node of
    every definition whose category is listed and whose lower-cased name
    contains the lower-cased search term. *)
Theorem buildFileTree_search_finds (parsed : Types.ParsedUserDefinition) (term : jsstr)
    (d : UserDefinition) :
  In d (Types.userDefinitions parsed) ->
  In (categoryId d) (map Types.categoryId (Types.userCategories parsed)) ->
  includes (toLowerCase (definitionName d)) (toLowerCase term) = true ->
  In (Tree.fileNode d)
     (flat_map Tree.all_nodes (Tree.searchInTree (Tree.buildFileTree parsed) term)).
Proof.
  intros Hd Hc Hm. apply TreeSearchFacts.searchInTree_finds.
  - apply TreeSearchFacts.buildFileTree_leaves.
  - apply TreeSearchFacts.fileNode_in_buildFileTree; assumption.
  - reflexivity.
  - exact Hm.
Qed.

Lemma buildFileTree_search_finds_witness :
  In (Tree.fileNode Examples.d_a)
     (flat_map Tree.all_nodes
        (Tree.searchInTree (Tree.buildFileTree Examples.parsed_A) (s2u "Foo"))).
Proof.
  apply buildFileTree_search_finds.
  - vm_compute. right. right. left. reflexivity.
  - vm_compute. left. reflexivity.
  - vm_compute. reflexivity.
Defined.

(** ** Snippets, highlights and the search wrappers *)

Module SearchApiFacts.

Lemma js_substring_length s a b :
  length (js_substring s a b) =
  (Nat.max (Nat.min a (length s)) (Nat.min b (length s))
   - Nat.min (Nat.min a (length s)) (Nat.min b (length s)))%nat.
Proof. unfold js_substring. rewrite length_firstn, length_skipn. lia. Qed.

Lemma split_length_pos sep s : (1 <= length (split sep s))%nat.
Proof.
  induction s as [|c s IH]; simpl; [lia|].
  destruct (c =? sep); simpl; [lia|].
  destruct (split sep s); simpl in *; lia.
Qed.

(** Splits on the [Nat.min] and [Nat.max] of the goal, then [lia]. *)
Ltac minmax_lia :=
  rewrite ?Nat.max_0_l;
  repeat match goal with
         | |- context[Nat.min ?a ?b] => destruct (Nat.min_spec a b) as [[? ->]|[? ->]]
         | |- context[Nat.max ?a ?b] => destruct (Nat.max_spec a b) as [[? ->]|[? ->]]
         end; lia.

Lemma snippet_shape text query :
  match createSnippetWithPosition text query with
  | (snippet, None, None) =>
      indexOf (toLowerCase text) (toLowerCase query) = None /\
      (length snippet <= 103)%nat
  | (snippet, Some lineNumber, Some column) =>
      (exists i, indexOf (toLowerCase text) (toLowerCase query) = Some i /\
         let lines := split newline (js_substring text 0 i) in
         lineNumber = length lines /\ column = (length (last lines []) + 1)%nat) /\
      (1 <= lineNumber)%nat /\ (1 <= column)%nat /\
      (length snippet <= length query + 106)%nat
  | _ => False
  end.
Proof.
  unfold createSnippetWithPosition. cbv zeta.
  destruct (indexOf (toLowerCase text) (toLowerCase query)) as [i|] eqn:E.
  - replace (100 / 2)%nat with 50%nat by reflexivity.
    split; [exists i; split; [reflexivity | split; reflexivity]|].
    split; [apply split_length_pos|]. split; [lia|].
    destruct (0 <? Nat.max 0 (i - 50))%nat;
    destruct (Nat.min (length text) (i + length query + 50) <? length text)%nat;
    rewrite ?length_app, js_substring_length; simpl length; minmax_lia.
  - split; [reflexivity|]. rewrite length_app, js_substring_length. simpl length. minmax_lia.
Qed.

(** The result [search] pushes for definition [d] found in field [f]. *)
Definition result_of (q : jsstr) (f : Field) (d : UserDefinition) : SearchResult :=
  let s := createSnippetWithPosition
             (match f with
              | Fcontent => extractDefinitionContent d
              | FdefinitionName => definitionName d
              end) q in
  mkSearchResult d [mkMatch f (fst (fst s)) (snd (fst s)) (snd s) (Some (length q))] 1.

Lemma search_item_full m q o f (acc : list jsstr * list SearchResult) id :
  search_item m q o f acc id = acc \/
  exists d,
    map_get m id = Some d /\ set_has (fst acc) id = false /\ passes o d /\
    search_item m q o f acc id = (id :: fst acc, snd acc ++ [result_of q f d]).
Proof.
  destruct acc as [seen formatted]. unfold search_item, result_of.
  destruct (set_has seen id) eqn:Hs; [left; reflexivity|].
  destruct (map_get m id) as [d|] eqn:Hd; [|left; reflexivity].
  destruct (filter_rejects (opt_definitionType o) (definitionType d)) eqn:Ht;
    [left; reflexivity|].
  destruct (filter_rejects (opt_categoryId o) (categoryId d)) eqn:Hc;
    [left; reflexivity|].
  right. exists d. split; [reflexivity|]. split; [exact Hs|].
  split; [split; assumption|].
  destruct (createSnippetWithPosition _ q) as [[snippet ln] col]. reflexivity.
Qed.

Lemma field_loop_full m q o f ids acc r :
  In r (snd (fold_left (search_item m q o f) ids acc)) ->
  In r (snd acc) \/ exists d, passes o d /\ r = result_of q f d.
Proof.
  revert acc. induction ids as [|id ids IHi]; intros acc Hr; [left; exact Hr|].
  simpl in Hr. apply IHi in Hr as [Hr|Hr]; [|right; exact Hr].
  destruct (search_item_full m q o f acc id) as [E|[d [_ [_ [Hp E]]]]];
    rewrite E in Hr; [left; exact Hr|].
  simpl in Hr. apply in_app_iff in Hr as [Hr|[<-|[]]]; [left; exact Hr|].
  right. exists d. split; [exact Hp | reflexivity].
Qed.

Lemma search_loop_full m q o results acc r :
  In r (snd (fold_left (search_field m q o) results acc)) ->
  In r (snd acc) \/
  exists f d, In f (map fst results) /\ passes o d /\ r = result_of q f d.
Proof.
  revert acc. induction results as [|[f ids] results IH]; intros acc Hr; [left; exact Hr|].
  simpl in Hr. apply IH in Hr as [Hr|[f' [d [Hf [Hp ->]]]]];
    [|right; exists f', d; split; [right; exact Hf | split; [exact Hp | reflexivity]]].
  unfold search_field in Hr; simpl in Hr.
  apply field_loop_full in Hr as [Hr|[d [Hp ->]]]; [left; exact Hr|].
  right. exists f, d. split; [left; reflexivity | split; [exact Hp | reflexivity]].
Qed.

Lemma search_results fs_search st q o rs r :
  search fs_search st q o = Ok rs -> In r rs ->
  exists f d, In f (fields_of o) /\ passes o d /\ r = result_of q f d.
Proof.
  unfold search. destruct (index st) as [idx|]; [|discriminate].
  destruct (isIndexed st); [|discriminate]. intros H Hr. inversion H; subst rs.
  apply search_loop_full in Hr as [[]|[f [d [Hf Hrest]]]].
  exists f, d. split; [|exact Hrest].
  unfold searchAsync in Hf. rewrite map_map in Hf. simpl in Hf. rewrite map_id in Hf.
  exact Hf.
Qed.

Definition name_step (m : list (jsstr * UserDefinition)) (definitions : list UserDefinition)
    (itemId : jsstr) : list UserDefinition :=
  match map_get m itemId with
  | Some definition => definitions ++ [definition]
  | None => definitions
  end.

Lemma name_loop m q o f ids : forall seen fmt,
  opt_definitionType o = None -> opt_categoryId o = None ->
  NoDup ids -> (forall id, In id ids -> ~ In id seen) ->
  map sr_definition (snd (fold_left (search_item m q o f) ids (seen, fmt))) =
  fold_left (name_step m) ids (map sr_definition fmt).
Proof.
  induction ids as [|id ids IH]; intros seen fmt Ht Hc Hnd Hdis; cbn [fold_left];
    [reflexivity|].
  inversion Hnd as [|? ? Hnin Hnd']; subst.
  assert (Hs : set_has seen id = false).
  { destruct (set_has seen id) eqn:E; [|reflexivity].
    apply set_has_In in E. exfalso. exact (Hdis id (or_introl eq_refl) E). }
  unfold name_step at 2. destruct (map_get m id) as [d|] eqn:Hd.
  - assert (E : search_item m q o f (seen, fmt) id = (id :: seen, fmt ++ [result_of q f d])).
    { unfold search_item, result_of. rewrite Hs, Hd, Ht, Hc. cbn [filter_rejects].
      destruct (createSnippetWithPosition _ q) as [[sn ln] col]. reflexivity. }
    rewrite E, IH; [ | exact Ht | exact Hc | exact Hnd' | ].
    + rewrite map_app. reflexivity.
    + intros id' Hid' [<-|Hin]; [exact (Hnin Hid')|]. exact (Hdis id' (or_intror Hid') Hin).
  - assert (E : search_item m q o f (seen, fmt) id = (seen, fmt))
      by (unfold search_item; rewrite Hs, Hd; reflexivity).
    rewrite E. apply IH; [exact Ht | exact Hc | exact Hnd' |].
    intros id' Hid'. exact (Hdis id' (or_intror Hid')).
Qed.

Lemma highlight_snippet q f d text :
  let s := createSnippetWithPosition text q in
  SearchApi.highlightPositions
    (mkSearchResult d [mkMatch f (fst (fst s)) (snd (fst s)) (snd s) (Some (length q))] 1) =
  match indexOf (toLowerCase text) (toLowerCase q), q with
  | Some i, _ :: _ =>
      let lines := split newline (js_substring text 0 i) in
      [(length lines, (length (last lines []) + 1)%nat, length q)]
  | _, _ => []
  end.
Proof.
  intros s. pose proof (snippet_shape text q) as H. unfold s. clear s.
  destruct (createSnippetWithPosition text q) as [[sn [ln|]] [col|]];
    cbn [fst snd]; try contradiction.
  - destruct H as [[i [Ei [Hl Hc]]] [H1 [H2 _]]]. rewrite Ei. cbv zeta in Hl, Hc.
    unfold SearchApi.highlightPositions.
    cbn [sr_matches filter m_lineNumber m_column m_matchLength SearchApi.truthy_number].
    replace (ln =? 0)%nat with false by (symmetry; apply Nat.eqb_neq; lia).
    replace (col =? 0)%nat with false by (symmetry; apply Nat.eqb_neq; lia).
    subst ln col. destruct q as [|c q']; reflexivity.
  - destruct H as [Ei _]. rewrite Ei. reflexivity.
Qed.

Lemma searchNames_eq fs_search st query limit :
  (forall idx, index st = Some idx ->
     NoDup (fs_search idx FdefinitionName query (SearchApi.limit_or_default limit))) ->
  SearchApi.searchNames fs_search st query limit =
  match search fs_search st query
          (mkSearchOptions (Some (SearchApi.limit_or_default limit))
             (Some [FdefinitionName]) None None) with
  | Ok rs => Ok (map sr_definition rs)
  | Err e => Err e
  end.
Proof.
  intros Hnd. unfold SearchApi.searchNames, search.
  destruct (index st) as [idx|]; [|reflexivity].
  destruct (isIndexed st); [|reflexivity].
  cbn [searchAsync map fold_left limit_of fields_of opt_limit opt_fields snd fst].
  unfold search_field. cbn [fst snd]. f_equal.
  symmetry. apply (name_loop _ _ _ _ _ [] []); [reflexivity | reflexivity | | ].
  - apply Hnd. reflexivity.
  - intros id _ [].
Qed.

End SearchApiFacts.

(** [createSnippetWithPosition] returns a snippet of at most 103 code
    units and no position when the lower-cased query does not occur in the
    lower-cased text; otherwise a snippet of at most the query's length
    plus 106 code units, and a 1-based line and column obtained by
    splitting on newlines the original text cut at the index [i] of the
    first occurrence in the lower-cased text. (Where lower-casing changes
    the length of the text before the occurrence, this is not the
    occurrence's own position.) *)
Theorem createSnippetWithPosition_bounds (text query : jsstr) :
  match createSnippetWithPosition text query with
  | (snippet, None, None) =>
      indexOf (toLowerCase text) (toLowerCase query) = None /\
      (length snippet <= 103)%nat
  | (snippet, Some lineNumber, Some column) =>
      (exists i, indexOf (toLowerCase text) (toLowerCase query) = Some i /\
         let lines := split newline (js_substring text 0 i) in
         lineNumber = length lines /\ column = (length (last lines []) + 1)%nat) /\
      (1 <= lineNumber)%nat /\ (1 <= column)%nat /\
      (length snippet <= length query + 106)%nat
  | _ => False
  end.
Proof. apply SearchApiFacts.snippet_shape. Qed.

(** Every result of [searchContent] carries one match, in the [content]
    field, whose snippet, line and column are those computed by
    [createSnippetWithPosition] on the definition's extracted content; with
    a [definitionType] given, every result has that type. *)
Theorem searchContent_results fs_search (st : Service) (query : jsstr)
    (defType : option SearchApi.DefinitionType) (limit : option nat)
    (rs : list SearchResult) (r : SearchResult) :
  SearchApi.searchContent fs_search st query defType limit = Ok rs -> In r rs ->
  (exists snippet lineNumber column,
     sr_matches r = [mkMatch Fcontent snippet lineNumber column (Some (length query))] /\
     createSnippetWithPosition (extractDefinitionContent (sr_definition r)) query
       = (snippet, lineNumber, column)) /\
  (forall t, defType = Some t ->
     definitionType (sr_definition r) = SearchApi.definitionType_string t).
Proof.
  intros H Hr. unfold SearchApi.searchContent in H.
  destruct (SearchApiFacts.search_results _ _ _ _ _ _ H Hr) as [f [d [Hf [[Ht _] ->]]]].
  simpl in Hf. destruct Hf as [<-|[]].
  unfold SearchApiFacts.result_of. cbn [sr_definition sr_matches]. split.
  - destruct (createSnippetWithPosition (extractDefinitionContent d) query) as [[sn ln] col].
    exists sn, ln, col. split; reflexivity.
  - intros t ->. cbn [opt_definitionType option_map] in Ht.
    apply (filter_rejects_false _ _ _ Ht eq_refl). destruct t; discriminate.
Qed.

Lemma searchContent_results_witness :
  (exists snippet lineNumber column,
     sr_matches (hd (SearchApiFacts.result_of [] Fcontent Examples.d_a)
                  (match SearchApi.searchContent Examples.fs_substring Examples.st_abc
                           (s2u "Select") (Some SearchApi.dt_sql) None with
                   | Ok rs => rs | Err _ => [] end))
     = [mkMatch Fcontent snippet lineNumber column (Some (length (s2u "Select")))] /\
     createSnippetWithPosition
       (extractDefinitionContent
          (sr_definition (hd (SearchApiFacts.result_of [] Fcontent Examples.d_a)
             (match SearchApi.searchContent Examples.fs_substring Examples.st_abc
                      (s2u "Select") (Some SearchApi.dt_sql) None with
              | Ok rs => rs | Err _ => [] end))))
       (s2u "Select")
     = (snippet, lineNumber, column)) /\
  (forall t, Some SearchApi.dt_sql = Some t ->
     definitionType
       (sr_definition (hd (SearchApiFacts.result_of [] Fcontent Examples.d_a)
          (match SearchApi.searchContent Examples.fs_substring Examples.st_abc
                   (s2u "Select") (Some SearchApi.dt_sql) None with
           | Ok rs => rs | Err _ => [] end)))
     = SearchApi.definitionType_string t).
Proof.
  apply (searchContent_results Examples.fs_substring Examples.st_abc (s2u "Select")
           (Some SearchApi.dt_sql) None
           (match SearchApi.searchContent Examples.fs_substring Examples.st_abc
                    (s2u "Select") (Some SearchApi.dt_sql) None with
            | Ok rs => rs | Err _ => [] end)).
  - vm_compute. reflexivity.
  - vm_compute. left. reflexivity.
Defined.

(** For every result of [search], the one match of the result is in a
    searched field [f], and the highlight positions computed by
    [handleSearchResultSelect] are: none when the query is empty or the
    lower-cased query does not occur in the lower-cased text of [f];
    otherwise the single position (line, column, query length) whose line
    and column are counted in the original text of [f] cut at the index of
    the occurrence in the lower-cased text. *)
Theorem search_highlightPositions fs_search (st : Service) (q : jsstr)
    (o : SearchOptions) (rs : list SearchResult) (r : SearchResult) :
  search fs_search st q o = Ok rs -> In r rs ->
  exists f, In f (fields_of o) /\ map m_field (sr_matches r) = [f] /\
    let text := match f with
                | Fcontent => extractDefinitionContent (sr_definition r)
                | FdefinitionName => definitionName (sr_definition r)
                end in
    SearchApi.highlightPositions r =
    match indexOf (toLowerCase text) (toLowerCase q), q with
    | Some i, _ :: _ =>
        let lines := split newline (js_substring text 0 i) in
        [(length lines, (length (last lines []) + 1)%nat, length q)]
    | _, _ => []
    end.
Proof.
  intros H Hr.
  destruct (SearchApiFacts.search_results _ _ _ _ _ _ H Hr) as [f [d [Hf [_ ->]]]].
  exists f. split; [exact Hf|]. unfold SearchApiFacts.result_of. cbn zeta.
  split; [reflexivity|]. apply SearchApiFacts.highlight_snippet.
Qed.

Lemma search_highlightPositions_witness :
  exists f, In f (fields_of no_options) /\
    map m_field (sr_matches (hd (SearchApiFacts.result_of [] Fcontent Examples.d_a)
      (match search Examples.fs_substring Examples.st_abc (s2u "FOO") no_options with
       | Ok rs => rs | Err _ => [] end))) = [f] /\
    let r := hd (SearchApiFacts.result_of [] Fcontent Examples.d_a)
               (match search Examples.fs_substring Examples.st_abc (s2u "FOO") no_options with
                | Ok rs => rs | Err _ => [] end) in
    let text := match f with
                | Fcontent => extractDefinitionContent (sr_definition r)
                | FdefinitionName => definitionName (sr_definition r)
                end in
    SearchApi.highlightPositions r =
    match indexOf (toLowerCase text) (toLowerCase (s2u "FOO")), s2u "FOO" with
    | Some i, _ :: _ =>
        let lines := split newline (js_substring text 0 i) in
        [(length lines, (length (last lines []) + 1)%nat, length (s2u "FOO"))]
    | _, _ => []
    end.
Proof.
  apply (search_highlightPositions Examples.fs_substring Examples.st_abc (s2u "FOO") no_options
           (match search Examples.fs_substring Examples.st_abc (s2u "FOO") no_options with
            | Ok rs => rs | Err _ => [] end)).
  - vm_compute. reflexivity.
  - vm_compute. left. reflexivity.
Defined.

(** When FlexSearch returns no id twice for the name field, [searchNames]
    returns exactly the definitions of the results of [search] restricted
    to the [definitionName] field with the same limit and no filters, in
    the same order; both fail alike when the index is not ready. *)
Theorem searchNames_as_search fs_search (st : Service) (query : jsstr)
    (limit : option nat) :
  (forall idx, index st = Some idx ->
     NoDup (fs_search idx FdefinitionName query (SearchApi.limit_or_default limit))) ->
  SearchApi.searchNames fs_search st query limit =
  match search fs_search st query
          (mkSearchOptions (Some (SearchApi.limit_or_default limit))
             (Some [FdefinitionName]) None None) with
  | Ok rs => Ok (map sr_definition rs)
  | Err e => Err e
  end.
Proof. apply SearchApiFacts.searchNames_eq. Qed.

Lemma searchNames_as_search_witness :
  SearchApi.searchNames Examples.fs_substring Examples.st_abc (s2u "foo") None =
  match search Examples.fs_substring Examples.st_abc (s2u "foo")
          (mkSearchOptions (Some (SearchApi.limit_or_default None))
             (Some [FdefinitionName]) None None) with
  | Ok rs => Ok (map sr_definition rs)
  | Err e => Err e
  end.
Proof.
  apply searchNames_as_search. intros idx H. vm_compute in H. inversion H; subst idx.
  vm_compute. repeat constructor; simpl; intuition discriminate.
Defined.
